(** * Risk scoring and adaptive blacklist engine

    A shallow embedding of the bot-detection core of the page scripts:
    [blacklistSystem] of [src/js/utils.js] (static IP blocking, the failed
    attempt ledger kept in [localStorage], the suspicious-pattern ratio) and
    [detectAutomation] of [src/js/fragment-handler.js].

    Conventions of the embedding.
    - A JavaScript string is a [string]: a sequence of code units below 256
      (Latin-1), which is what a user-agent text, an address text and the
      output of [btoa] are.
    - A JavaScript number is a double.  Where the code divides or adds
      fractions the model uses the kernel's binary64 [float]; integer
      arithmetic on values below 2^53 is exact on doubles and is written on
      [Z], with the 32-bit wrap-around of the bit operators written out.
    - [Date.now()] is a parameter [now] of each operation (milliseconds); an
      operation reads one clock value throughout.
    - A function with [try]/[catch] is a computation in the monad [M] of
      state and exceptions below; [localStorage] may throw on every access. *)

From Stdlib Require Import ZArith QArith Lia Bool Ascii String.
From Stdlib Require Import PrimFloat Uint63 FloatOps SpecFloat.
From Stdlib Require Import DecimalString.
From stdpp Require Import base option list strings gmap.

Set Warnings "-inexact-float".

Local Open Scope string_scope.

(** ** JavaScript values and primitive operations *)

Module JS.

(** The values a probed global or property may hold. *)
Inductive Value :=
| VUndefined
| VNull
| VBool (b : bool)
| VNumber (n : Z)
| VString (s : string)
| VObject
| VFunction.

Definition typeof (v : Value) : string :=
  match v with
  | VUndefined => "undefined"
  | VNull => "object"
  | VBool _ => "boolean"
  | VNumber _ => "number"
  | VString _ => "string"
  | VObject => "object"
  | VFunction => "function"
  end.

(** [!!v] *)
Definition truthy (v : Value) : bool :=
  match v with
  | VUndefined | VNull => false
  | VBool b => b
  | VNumber n => negb (n =? 0)%Z
  | VString s => negb (String.eqb s "")
  | VObject | VFunction => true
  end.

(** [v === true] *)
Definition is_true (v : Value) : bool :=
  match v with VBool true => true | _ => false end.

(** *** Strings *)

(** [String.prototype.toLowerCase] on Latin-1 text: A-Z and the accented
    capitals U+00C0..U+00DE (U+00D7 excepted) move up by 32. *)
Definition lower_ascii (c : ascii) : ascii :=
  let n := N_of_ascii c in
  if ((65 <=? n) && (n <=? 90) ||
      (192 <=? n) && (n <=? 222) && negb (n =? 215))%N
  then ascii_of_N (n + 32) else c.

Fixpoint toLowerCase (s : string) : string :=
  match s with
  | EmptyString => EmptyString
  | String c s' => String (lower_ascii c) (toLowerCase s')
  end.

(** [s.includes(sub)] *)
Fixpoint includes (s sub : string) : bool :=
  String.prefix sub s ||
  match s with
  | EmptyString => false
  | String _ s' => includes s' sub
  end.

(** [s.split(sep)] for a one-character separator. *)
Fixpoint split (sep : ascii) (s : string) : list string :=
  match s with
  | EmptyString => [EmptyString]
  | String c s' =>
      if Ascii.eqb c sep then EmptyString :: split sep s'
      else match split sep s' with
           | h :: t => String c h :: t
           | [] => [String c EmptyString]
           end
  end.

(** [parts.join(sep)] *)
Fixpoint join (sep : string) (parts : list string) : string :=
  match parts with
  | [] => ""
  | [p] => p
  | p :: rest => p ++ sep ++ join sep rest
  end.

(** [s.substring(0, n)] *)
Definition substring0 (n : nat) (s : string) : string := String.substring 0 n s.

(** Decimal text of a non-negative integer, as [String(n)] gives it. *)
Definition string_of_N (n : N) : string := NilEmpty.string_of_uint (N.to_uint n).

(** *** Numbers *)

(** A number that is an integer, or [NaN].  A missing array element
    ([undefined]) converts to [NaN] wherever the code below uses one.
    Integers are kept exactly: the doubles of the source agree with them up
    to 2^53, which covers the fields of every address text of at most 15
    digits each; longer runs of digits, which a double rounds, are outside
    the model. *)
Inductive Num := NaN | Int (z : Z).

Definition is_whitespace (c : ascii) : bool :=
  let n := N_of_ascii c in
  ((9 <=? n) && (n <=? 13) || (n =? 32) || (n =? 160))%N.

Definition digit_of (c : ascii) : option Z :=
  let n := N_of_ascii c in
  if ((48 <=? n) && (n <=? 57))%N then Some (Z.of_N n - 48)%Z else None.

Fixpoint skip_whitespace (s : string) : string :=
  match s with
  | String c s' => if is_whitespace c then skip_whitespace s' else s
  | EmptyString => s
  end.

(** The leading run of decimal digits of [s], accumulated onto [acc];
    [None] while no digit has been read. *)
Fixpoint digits (s : string) (acc : option Z) : option Z :=
  match s with
  | String c s' =>
      match digit_of c with
      | Some d => digits s' (Some (10 * default 0 acc + d))%Z
      | None => acc
      end
  | EmptyString => acc
  end.

(** [parseInt(s, 10)]: leading white space, an optional sign, then the
    longest run of digits; [NaN] when there is none. *)
Definition parseInt10 (s : string) : Num :=
  let s := skip_whitespace s in
  let '(neg, s) :=
    match s with
    | String "-" s' => (true, s')
    | String "+" s' => (false, s')
    | _ => (false, s)
    end in
  match digits s None with
  | Some z => Int (if neg then - z else z)
  | None => NaN
  end.

Definition two32 : Z := 4294967296.
Definition two31 : Z := 2147483648.

Definition ToUint32 (x : Num) : Z :=
  match x with NaN => 0 | Int z => z mod two32 end%Z.

Definition ToInt32 (x : Num) : Z :=
  match x with NaN => 0 | Int z => (z + two31) mod two32 - two31 end%Z.

(** [a << b]: the left operand as a signed 32-bit integer, the shift count
    taken modulo 32, the result wrapped to 32 bits. *)
Definition shl (a b : Num) : Num :=
  Int (ToInt32 (Int (Z.shiftl (ToInt32 a) (ToUint32 b mod 32)))).

(** [a >>> 0] *)
Definition ushr0 (a : Num) : Num := Int (ToUint32 a).

(** [a & b] *)
Definition band (a b : Num) : Num := Int (Z.land (ToInt32 a) (ToInt32 b)).

Definition add (a b : Num) : Num :=
  match a, b with Int x, Int y => Int (x + y) | _, _ => NaN end.

Definition sub (a b : Num) : Num :=
  match a, b with Int x, Int y => Int (x - y) | _, _ => NaN end.

(** [a === b] on numbers: [NaN] equals nothing. *)
Definition strict_eq (a b : Num) : bool :=
  match a, b with Int x, Int y => (x =? y)%Z | _, _ => false end.

(** *** [btoa]: base64 of a Latin-1 string *)

Definition b64_alphabet : list ascii :=
  list_ascii_of_string
    "ABCDEFGHIJKLMNOPQRSTUVWXYZabcdefghijklmnopqrstuvwxyz0123456789+/".

Definition b64_char (n : N) : ascii := nth (N.to_nat n) b64_alphabet "="%char.

Fixpoint b64_encode (bytes : list N) : string :=
  match bytes with
  | [] => ""
  | [a] =>
      String (b64_char (a / 4))
        (String (b64_char (a mod 4 * 16)) "==")
  | [a; b] =>
      String (b64_char (a / 4))
        (String (b64_char (a mod 4 * 16 + b / 16))
           (String (b64_char (b mod 16 * 4)) "="))
  | a :: b :: c :: rest =>
      String (b64_char (a / 4))
        (String (b64_char (a mod 4 * 16 + b / 16))
           (String (b64_char (b mod 16 * 4 + c / 64))
              (String (b64_char (c mod 64)) (b64_encode rest))))
  end%N.

Definition btoa (s : string) : string :=
  b64_encode (map N_of_ascii (list_ascii_of_string s)).

End JS.

(** ** The browser host *)

(** What the scripts read from [navigator], [window], [document] and
    [screen].  Every field is a value of the type the property has in a
    browser, so the property reads themselves do not throw. *)
Record Host := {
  (* navigator *)
  userAgent : string;
  language : string;
  platform : string;
  languages : option (list string);   (* [None]: the property is missing *)
  webdriver : JS.Value;
  pluginCount : nat;                  (* [navigator.plugins.length] *)
  maxTouchPoints : nat;
  (* window *)
  chrome : JS.Value;
  InstallTrigger : JS.Value;
  callPhantom : JS.Value;
  _phantom : JS.Value;
  phantom : JS.Value;                 (* the free identifier [phantom] *)
  ontouchstart : bool;                (* ['ontouchstart' in window] *)
  (* [new Error('test').stack]; [None] when building the error throws *)
  errorStack : option JS.Value;
  (* document.documentElement.getAttribute(..); [None] is [null] *)
  attr_selenium : option string;
  attr_webdriver : option string;
  attr_driver : option string;
  (* screen *)
  screenWidth : N;
  screenHeight : N;
  (* [canvas.toDataURL()] of the identifier drawing; [None] when it throws *)
  canvasDataURL : option string
}.

(** ** [blacklistSystem]: configuration *)

Record SuspiciousPatterns := {
  noFonts : bool;
  noCanvas : bool;
  noWebGL : bool;
  mismatchedUA : bool;
  spoofedLanguages : bool;
  noStorage : bool;
  inconsistentFeatures : bool;
  tooBluetooth : bool;
  tooNetwork : bool;
  tamperedDOM : bool;
  perfectConsistency : bool;
  allPluginsDisabled : bool;
  unusualTimezone : bool
}.

Record Thresholds := {
  maxFailedAttempts : Z;
  blacklistDuration : Z      (* seconds *)
}.

Record Config := {
  knownBotSignatures : list string;
  securityTools : list string;
  suspiciousPatterns : SuspiciousPatterns;
  knownMaliciousIPs : list string;
  blockedIPRanges : list string;
  thresholds : Thresholds
}.

(** The object literal of the source. *)
Definition defaultConfig : Config := {|
  knownBotSignatures :=
    ["googlebot"; "bingbot"; "yandexbot"; "slurp"; "duckduckbot"; "baiduspider";
     "bytespider"; "facebookexternalhit"; "twitterbot"; "rogerbot"; "linkedinbot";
     "embedly"; "quora link preview"; "showyoubot"; "outbrain"; "pinterest";
     "slackbot"; "vkshare"; "w3c_validator"; "postman"; "curl"; "wget";
     "python-requests"; "ahrefs"; "semrushbot"; "mj12bot"; "applebot"; "dotbot";
     "zoominfobot"; "scanner"; "crawler"; "spider"; "headless"; "scraper";
     "selenium"; "webdriver"; "puppeteer"; "phantom"; "nightmare"; "jsdom"];
  securityTools :=
    ["avast"; "avg"; "avira"; "bitdefender"; "kaspersky"; "mcafee"; "norton";
     "eset"; "f-secure"; "trend micro"; "sophos"; "symantec"; "trustwave";
     "forcepoint"; "checkpoint"; "barracuda"; "mimecast"; "proofpoint";
     "fireeye"; "crowdstrike"; "cyren"; "spamhaus"; "spamcop"; "netcraft";
     "virustotal"; "sucuri"; "urlscan"; "zscaler"; "office365";
     "microsoft-security"; "cisco"; "forcepoint"; "cofense"];
  suspiciousPatterns := {|
    noFonts := true; noCanvas := true; noWebGL := true; mismatchedUA := true;
    spoofedLanguages := true; noStorage := true; inconsistentFeatures := true;
    tooBluetooth := true; tooNetwork := true; tamperedDOM := true;
    perfectConsistency := true; allPluginsDisabled := true;
    unusualTimezone := true |};
  knownMaliciousIPs :=
    ["154.28.229.126"; "152.32.99.64"; "107.150.22.208"; "54.189.230.128";
     "154.28.229.253"; "154.28.229.224"; "154.28.229.172"; "154.28.229.108";
     "154.28.229.11"; "154.28.229.18"; "154.28.229.20"; "154.28.229.1";
     "154.28.229.140"; "154.28.229.111"; "154.28.229.49"; "154.28.229.145";
     "154.28.229.242"; "104.164.173.222"; "104.164.173.206"; "104.164.173.128"];
  blockedIPRanges := ["104.164.173.0/24"; "154.28.229.0/24"];
  thresholds := {| maxFailedAttempts := 3; blacklistDuration := 86400 |}
|}.

(** [addMaliciousIP(ip)]: a falsy or already listed address is skipped. *)
Definition addMaliciousIP (ip : string) (ips : list string) : list string :=
  if negb (String.eqb ip "") && negb (existsb (String.eqb ip) ips)
  then (ips ++ [ip])%list else ips.

(** [utils.configureMaliciousIPs(ips, ranges)]: [addMaliciousIP] for each
    address, then the ranges are pushed as they are given. *)
Definition configureMaliciousIPs (ips ranges : list string) (cfg : Config) : Config :=
  {| knownBotSignatures := knownBotSignatures cfg;
     securityTools := securityTools cfg;
     suspiciousPatterns := suspiciousPatterns cfg;
     knownMaliciousIPs := fold_left (fun acc ip => addMaliciousIP ip acc) ips (knownMaliciousIPs cfg);
     blockedIPRanges := (blockedIPRanges cfg ++ ranges)%list;
     thresholds := thresholds cfg |}.

(** ** Static IP blocking *)

(** [ipToInt]: [parts[i]] past the end of the array is [undefined], which
    [<<] and [+] convert to [NaN]. *)
Definition ipToInt (ip : string) : JS.Num :=
  let parts := map JS.parseInt10 (JS.split "." ip) in
  let part i := nth i parts JS.NaN in
  JS.add (JS.add (JS.add (JS.shl (part 0%nat) (JS.Int 24))
                         (JS.shl (part 1%nat) (JS.Int 16)))
                 (JS.shl (part 2%nat) (JS.Int 8)))
         (part 3%nat).

(** The subnet mask [(0xFFFFFFFF << (32 - prefix)) >>> 0]. *)
Definition subnetMask (prefix : JS.Num) : JS.Num :=
  JS.ushr0 (JS.shl (JS.Int 4294967295) (JS.sub (JS.Int 32) prefix)).

(** The comparison [(ipInt & mask) === (rangeInt & mask)]. *)
Definition sameNetwork (ipInt rangeInt prefix : JS.Num) : bool :=
  let mask := subnetMask prefix in
  JS.strict_eq (JS.band ipInt mask) (JS.band rangeInt mask).

(** [const [rangeIP, prefixLength] = cidr.split('/')]; a missing second
    element is [undefined], which [parseInt] reads as [NaN]. *)
Definition splitCidr (cidr : string) : string * JS.Num :=
  let parts := JS.split "/" cidr in
  (nth 0 parts "",
   match parts !! 1%nat with
   | Some prefixLength => JS.parseInt10 prefixLength
   | None => JS.NaN
   end).

(** [isIPInRange(ip, cidr)].  On strings nothing in its [try] block
    throws, here and in [isIPBlocked], so the handlers are not reached. *)
Definition isIPInRange (ip cidr : string) : bool :=
  let '(rangeIP, prefix) := splitCidr cidr in
  sameNetwork (ipToInt ip) (ipToInt rangeIP) prefix.

(** [isIPBlocked(ip)]: [!ip] is the empty string. *)
Definition isIPBlocked (cfg : Config) (ip : string) : bool :=
  if String.eqb ip "" then false
  else if existsb (String.eqb ip) (knownMaliciousIPs cfg) then true
  else existsb (isIPInRange ip) (blockedIPRanges cfg).

(** ** Suspicious pattern evaluator *)

(** The data passed to [hasTooManySuspiciousPatterns]: the fingerprint
    object built by the caller, a mapping of signal names to values. *)
Definition Fingerprint := list (string * JS.Value).

(** The two running counters of the evaluator. *)
Record Counters := { suspiciousCount : nat; totalChecks : nat }.

Definition bump_suspicious (c : Counters) : Counters :=
  {| suspiciousCount := S (suspiciousCount c); totalChecks := totalChecks c |}.

Definition bump_total (c : Counters) : Counters :=
  {| suspiciousCount := suspiciousCount c; totalChecks := S (totalChecks c) |}.

(** The [mismatchedUA] block. *)
Definition checkMismatchedUA (h : Host) (c : Counters) : Counters :=
  let ua := JS.toLowerCase (userAgent h) in
  let c := if JS.includes ua "chrome" && String.eqb (JS.typeof (chrome h)) "undefined"
           then bump_suspicious c else c in
  let c := if JS.includes ua "firefox" && String.eqb (JS.typeof (InstallTrigger h)) "undefined"
           then bump_suspicious c else c in
  bump_total c.

(** The [tamperedDOM] block; when the probe throws, the handler counts the
    check and marks it suspicious. *)
Definition checkTamperedDOM (h : Host) (c : Counters) : Counters :=
  match errorStack h with
  | Some stack =>
      let c := if negb (JS.truthy stack) || negb (String.eqb (JS.typeof stack) "string")
               then bump_suspicious c else c in
      bump_total c
  | None => bump_total (bump_suspicious c)
  end.

Definition suspicionCounters (cfg : Config) (h : Host) : Counters :=
  let c := {| suspiciousCount := 0; totalChecks := 0 |} in
  let c := if mismatchedUA (suspiciousPatterns cfg) then checkMismatchedUA h c else c in
  let c := if tamperedDOM (suspiciousPatterns cfg) then checkTamperedDOM h c else c in
  c.

(** A counter as the double it is. *)
Definition float_of_nat (n : nat) : float := PrimFloat.of_uint63 (Uint63.of_Z (Z.of_nat n)).

(** [totalChecks > 0 && (suspiciousCount / totalChecks) > 0.3]; the right
    operand of [&&] is evaluated only when the left one holds. *)
Definition tooSuspicious (c : Counters) : bool :=
  if (0 <? totalChecks c)%nat
  then PrimFloat.ltb 0.3%float
         (PrimFloat.div (float_of_nat (suspiciousCount c)) (float_of_nat (totalChecks c)))
  else false.

Definition hasTooManySuspiciousPatterns (cfg : Config) (h : Host) (fingerprint : Fingerprint) : bool :=
  tooSuspicious (suspicionCounters cfg h).

(** The derived ratio of a SuspicionAssessment as the specification words
    it: [suspiciousCount / checkedCount], and 0 when [checkedCount] is 0. *)
Definition suspicionRatio (c : Counters) : Q :=
  if (totalChecks c =? 0)%nat then 0%Q
  else (inject_Z (Z.of_nat (suspiciousCount c)) / inject_Z (Z.of_nat (totalChecks c)))%Q.

(** ** Automation detector ([fragment-handler.js]) *)

Record AutomationResults := {
  r_webdriver : bool;
  r_headlessUserAgent : bool;
  r_phantomJS : bool;
  r_seleniumAttrs : bool;
  r_noPlugins : bool;
  automationScore : float
}.

(** [results.automationScore += w] *)
Definition addScore (w : float) (r : AutomationResults) : AutomationResults :=
  {| r_webdriver := r_webdriver r;
     r_headlessUserAgent := r_headlessUserAgent r;
     r_phantomJS := r_phantomJS r;
     r_seleniumAttrs := r_seleniumAttrs r;
     r_noPlugins := r_noPlugins r;
     automationScore := PrimFloat.add (automationScore r) w |}.

Definition set_webdriver (r : AutomationResults) : AutomationResults :=
  {| r_webdriver := true;
     r_headlessUserAgent := r_headlessUserAgent r;
     r_phantomJS := r_phantomJS r;
     r_seleniumAttrs := r_seleniumAttrs r;
     r_noPlugins := r_noPlugins r;
     automationScore := automationScore r |}.

Definition set_headlessUserAgent (r : AutomationResults) : AutomationResults :=
  {| r_webdriver := r_webdriver r;
     r_headlessUserAgent := true;
     r_phantomJS := r_phantomJS r;
     r_seleniumAttrs := r_seleniumAttrs r;
     r_noPlugins := r_noPlugins r;
     automationScore := automationScore r |}.

Definition set_phantomJS (r : AutomationResults) : AutomationResults :=
  {| r_webdriver := r_webdriver r;
     r_headlessUserAgent := r_headlessUserAgent r;
     r_phantomJS := true;
     r_seleniumAttrs := r_seleniumAttrs r;
     r_noPlugins := r_noPlugins r;
     automationScore := automationScore r |}.

Definition set_seleniumAttrs (r : AutomationResults) : AutomationResults :=
  {| r_webdriver := r_webdriver r;
     r_headlessUserAgent := r_headlessUserAgent r;
     r_phantomJS := r_phantomJS r;
     r_seleniumAttrs := true;
     r_noPlugins := r_noPlugins r;
     automationScore := automationScore r |}.

Definition set_noPlugins (r : AutomationResults) : AutomationResults :=
  {| r_webdriver := r_webdriver r;
     r_headlessUserAgent := r_headlessUserAgent r;
     r_phantomJS := r_phantomJS r;
     r_seleniumAttrs := r_seleniumAttrs r;
     r_noPlugins := true;
     automationScore := automationScore r |}.

(** The conditions of the [if] statements, in source order. *)
Definition lowerUA (h : Host) : string := JS.toLowerCase (userAgent h).

Definition hasWebdriverFlag (h : Host) : bool := JS.is_true (webdriver h).

Definition hasHeadlessUA (h : Host) : bool :=
  JS.includes (lowerUA h) "headless" || JS.includes (lowerUA h) "phantomjs".

Definition hasPhantomGlobal (h : Host) : bool :=
  String.eqb (JS.typeof (callPhantom h)) "function" ||
  String.eqb (JS.typeof (_phantom h)) "object" ||
  String.eqb (JS.typeof (phantom h)) "object".

(** [getAttribute(name) !== null] *)
Definition notNull (a : option string) : bool :=
  match a with Some _ => true | None => false end.

Definition hasSeleniumAttr (h : Host) : bool :=
  notNull (attr_selenium h) || notNull (attr_webdriver h) || notNull (attr_driver h).

Definition hasNoPlugins (h : Host) : bool :=
  (pluginCount h =? 0)%nat &&
  negb (JS.includes (lowerUA h) "firefox") &&
  negb (JS.includes (lowerUA h) "brave") &&
  negb (JS.includes (lowerUA h) "safari") &&
  negb (JS.includes (lowerUA h) "edge").

Definition lacksLanguages (h : Host) : bool :=
  match languages h with
  | None => true
  | Some l => (length l =? 0)%nat
  end.

Definition chromeWithoutGlobal (h : Host) : bool :=
  JS.includes (lowerUA h) "chrome" && negb (JS.truthy (chrome h)).

Definition mobileWithoutTouch (h : Host) : bool :=
  let hasTouch := ontouchstart h || (0 <? maxTouchPoints h)%nat in
  JS.includes (lowerUA h) "mobile" && negb hasTouch.

(** [detectAutomation()].  The reads of a [Host] do not throw, so the
    handler of the [try] block, which returns the results gathered so far,
    is not reached. *)
Definition detectAutomation (h : Host) : AutomationResults :=
  let results :=
    {| r_webdriver := false; r_headlessUserAgent := false; r_phantomJS := false;
       r_seleniumAttrs := false; r_noPlugins := false; automationScore := 0%float |} in
  let results := if hasWebdriverFlag h then addScore 3 (set_webdriver results) else results in
  let results := if hasHeadlessUA h then addScore 2 (set_headlessUserAgent results) else results in
  let results := if hasPhantomGlobal h then addScore 3 (set_phantomJS results) else results in
  let results := if hasSeleniumAttr h then addScore 3 (set_seleniumAttrs results) else results in
  let results := if hasNoPlugins h then addScore 0.5 (set_noPlugins results) else results in
  if PrimFloat.ltb 0 (automationScore results) then
    let results := if lacksLanguages h then addScore 0.5 results else results in
    let results := if chromeWithoutGlobal h then addScore 1 results else results in
    let results := if mobileWithoutTouch h then addScore 0.5 results else results in
    results
  else results.

(** [validateBrowserEnvironment]'s use of the score: the cut-off (8) is
    applied by the caller. *)
Definition highAutomationScore (h : Host) : bool :=
  PrimFloat.leb 8 (automationScore (detectAutomation h)).

(** The score as the specification's table words it: a weight per true
    predicate, the secondary ones counted only over a positive primary sum. *)
Definition weight (w : Q) (b : bool) : Q := if b then w else 0%Q.

Definition primaryScore (h : Host) : Q :=
  (weight 3 (hasWebdriverFlag h) + weight 2 (hasHeadlessUA h) +
   weight 3 (hasPhantomGlobal h) + weight 3 (hasSeleniumAttr h) +
   weight (1 # 2) (hasNoPlugins h))%Q.

Definition secondaryScore (h : Host) : Q :=
  (weight (1 # 2) (lacksLanguages h) + weight 1 (chromeWithoutGlobal h) +
   weight (1 # 2) (mobileWithoutTouch h))%Q.

Definition weightedScore (h : Host) : Q :=
  if Qlt_le_dec 0 (primaryScore h)
  then (primaryScore h + secondaryScore h)%Q
  else primaryScore h.

(** The rational a finite double denotes; [None] for infinities and [NaN]. *)
Definition Q_of_float (f : float) : option Q :=
  match Prim2SF f with
  | S754_zero _ => Some 0%Q
  | S754_finite s m e =>
      let mag := (inject_Z (Z.pos m) * Qpower 2 e)%Q in
      Some (if s then (- mag)%Q else mag)
  | S754_infinity _ | S754_nan => None
  end.

(** ** The penalty ledger: data *)

(** One element of a [reasons] array: [{reason, timestamp}]. *)
Record Reason := { reason : string; timestamp : Z }.

(** [failedAttempts[clientId]] *)
Record FailureRecord := {
  count : Z;
  fr_reasons : list Reason;
  firstAttempt : Z
}.

(** An entry of the persisted blacklist object. *)
Record BlacklistEntry := {
  added : Z;
  expires : Z;
  bl_reasons : list Reason
}.

(** The text held under a [localStorage] key: either the [JSON.stringify]
    of an object of the expected shape, which [JSON.parse] gives back, or
    text that [JSON.parse] rejects with a [SyntaxError].  Starting from an
    empty store the code writes texts of the first kind only; a text that
    parses to something other than such an object (an array, a number,
    [null]) is not represented. *)
Inductive Stored (A : Type) :=
| Garbage
| Json (a : A).
Arguments Garbage {A}.
Arguments Json {A} a.

(** [localStorage].  [getItem] throws when the store is not [readable]
    (access denied), [setItem] when it is not [writable] (denied, or the
    quota is exhausted).  A key that was never set reads as [null]: [None]. *)
Record LocalStorage := {
  readable : bool;
  writable : bool;
  captcha_blacklist : option (Stored (gmap string BlacklistEntry));
  captcha_failed_attempts : option (Stored (gmap string FailureRecord))
}.

Record UserPreferences := {
  allowFingerprinting : bool;
  allowStorage : bool;
  allowCanvas : bool;
  allowWebGL : bool
}.

(** The mutable part of the page: [localStorage] and the mutable fields of
    the [blacklistSystem] object.  The two objects keyed by client
    identifier are finite maps: an identifier is base64 text cut at 32
    characters (of a text with three [|] in it), never the name of a member
    of [Object.prototype], so a property read is a map lookup. *)
Record State := {
  localStorage : LocalStorage;
  failedAttempts : gmap string FailureRecord;
  blacklistedIPs : list string;
  userPreferences : UserPreferences;
  visitorIP : option string
}.

Definition set_localStorage (f : LocalStorage -> LocalStorage) (st : State) : State :=
  {| localStorage := f (localStorage st);
     failedAttempts := failedAttempts st;
     blacklistedIPs := blacklistedIPs st;
     userPreferences := userPreferences st;
     visitorIP := visitorIP st |}.

Definition set_failedAttempts
    (f : gmap string FailureRecord -> gmap string FailureRecord) (st : State) : State :=
  {| localStorage := localStorage st;
     failedAttempts := f (failedAttempts st);
     blacklistedIPs := blacklistedIPs st;
     userPreferences := userPreferences st;
     visitorIP := visitorIP st |}.

Definition set_blacklistedIPs (f : list string -> list string) (st : State) : State :=
  {| localStorage := localStorage st;
     failedAttempts := failedAttempts st;
     blacklistedIPs := f (blacklistedIPs st);
     userPreferences := userPreferences st;
     visitorIP := visitorIP st |}.

Definition store_blacklist (v : Stored (gmap string BlacklistEntry)) (ls : LocalStorage) : LocalStorage :=
  {| readable := readable ls;
     writable := writable ls;
     captcha_blacklist := Some v;
     captcha_failed_attempts := captcha_failed_attempts ls |}.

Definition store_failed_attempts (v : Stored (gmap string FailureRecord)) (ls : LocalStorage) : LocalStorage :=
  {| readable := readable ls;
     writable := writable ls;
     captcha_blacklist := captcha_blacklist ls;
     captcha_failed_attempts := Some v |}.

(** ** State and exceptions *)

Inductive Exn := SecurityError | QuotaExceededError | SyntaxError | TypeError.

(** How a call ends: it returns a value or throws. *)
Inductive Completion (A : Type) :=
| Normal (a : A)
| Throw (e : Exn).
Arguments Normal {A} a.
Arguments Throw {A} e.

(** A computation changes the state and completes; what it wrote before
    throwing stays written. *)
Definition M (A : Type) : Type := State -> Completion A * State.

#[export] Instance M_ret : MRet M := fun A a st => (Normal a, st).

#[export] Instance M_bind : MBind M := fun A B k m st =>
  match m st with
  | (Normal a, st') => k a st'
  | (Throw e, st') => (Throw e, st')
  end.

Definition throw {A} (e : Exn) : M A := fun st => (Throw e, st).

(** [try { body } catch (e) { handler }] *)
Definition try_catch {A} (body : M A) (handler : Exn -> M A) : M A := fun st =>
  match body st with
  | (Normal a, st') => (Normal a, st')
  | (Throw e, st') => handler e st'
  end.

Definition gets {A} (f : State -> A) : M A := fun st => (Normal (f st), st).

Definition modify (f : State -> State) : M unit := fun st => (Normal tt, f st).

(** The value a call returns, if it returns. *)
Definition returned {A} (r : Completion A * State) : option A :=
  match r.1 with Normal a => Some a | Throw _ => None end.

(** ** [localStorage] access and JSON *)

Definition getItem {A} (key : LocalStorage -> option (Stored A)) : M (option (Stored A)) :=
  fun st =>
    if readable (localStorage st) then (Normal (key (localStorage st)), st)
    else (Throw SecurityError, st).

Definition setItem {A} (store : Stored A -> LocalStorage -> LocalStorage) (v : Stored A) : M unit :=
  fun st =>
    if writable (localStorage st) then (Normal tt, set_localStorage (store v) st)
    else (Throw QuotaExceededError, st).

(** [JSON.parse(item || '{}')] *)
Definition parseOrEmpty {A} (item : option (Stored (gmap string A))) : M (gmap string A) :=
  match item with
  | None => mret ∅
  | Some (Json m) => mret m
  | Some Garbage => throw SyntaxError
  end.

(** [Object.keys(o)]; the order of the keys is not modelled. *)
Definition Object_keys {A} (o : gmap string A) : list string := (map_to_list o).*1.

(** ** The penalty ledger: operations *)

(** [getClientIdentifier]: the first 32 characters of the base64 of the
    joined components.  On Latin-1 text [btoa] is total, so the outer
    handler of the source (a random [fallback_] identifier) is not reached. *)
Definition clientIdentifier (h : Host) (prefs : UserPreferences) : string :=
  let components :=
    [userAgent h; language h;
     JS.string_of_N (screenWidth h) ++ "x" ++ JS.string_of_N (screenHeight h);
     platform h] in
  let components :=
    if allowCanvas prefs
    then (components ++ [match canvasDataURL h with
                         | Some url => url
                         | None => "no_canvas"
                         end])%list
    else components in
  JS.substring0 32 (JS.btoa (JS.join "|" components)).

Definition getClientIdentifier (h : Host) : M string :=
  prefs ← gets userPreferences;
  mret (clientIdentifier h prefs).

(** [isClientBlacklisted(clientId)] *)
Definition isClientBlacklisted (now : Z) (clientId : string) : M bool :=
  try_catch
    (item ← getItem captcha_blacklist;
     blacklist ← parseOrEmpty item;
     mret (match blacklist !! clientId with
           | Some entry => (now <? expires entry)%Z
           | None => false
           end))
    (fun _ => mret false).

(** The entry [addToBlacklist] writes:
    [{added: Date.now(), expires: Date.now() + blacklistDuration * 1000, reasons}]. *)
Definition newEntry (cfg : Config) (now : Z) (reasons : list Reason) : BlacklistEntry :=
  {| added := now;
     expires := (now + blacklistDuration (thresholds cfg) * 1000)%Z;
     bl_reasons := reasons |}.

(** [o[key] = v] on an object [JSON.parse] returned: the object gets or
    updates an own property, except under the key [__proto__] when the
    object has no own property of that name; the assignment then reaches
    the setter of [Object.prototype], which makes [v] the object's
    prototype and leaves its own properties, all that [JSON.stringify]
    writes, as they are. *)
Definition assignProperty {A} (key : string) (v : A) (o : gmap string A) : gmap string A :=
  if String.eqb key "__proto__" && bool_decide (o !! key = None) then o else <[key := v]> o.
Arguments assignProperty : simpl never.

(** [addToBlacklist(clientId, reasons)] *)
Definition addToBlacklist (cfg : Config) (now : Z) (clientId : string) (reasons : list Reason) : M unit :=
  try_catch
    (item ← getItem captcha_blacklist;
     blacklist ← parseOrEmpty item;
     let blacklist := assignProperty clientId (newEntry cfg now reasons) blacklist in
     setItem store_blacklist (Json blacklist);;
     modify (set_blacklistedIPs (fun ips => (ips ++ [clientId])%list)))
    (fun _ => mret tt).

(** [loadBlacklist()] *)
Definition loadBlacklist : M unit :=
  try_catch
    (item ← getItem captcha_blacklist;
     blacklist ← parseOrEmpty item;
     modify (set_blacklistedIPs (fun _ => Object_keys blacklist)))
    (fun _ => modify (set_blacklistedIPs (fun _ => []))).

(** [loadFailedAttempts()] *)
Definition loadFailedAttempts : M unit :=
  try_catch
    (item ← getItem captcha_failed_attempts;
     attempts ← parseOrEmpty item;
     modify (set_failedAttempts (fun _ => attempts)))
    (fun _ => modify (set_failedAttempts (fun _ => ∅))).

(** [saveFailedAttempts()] *)
Definition saveFailedAttempts : M unit :=
  try_catch
    (attempts ← gets failedAttempts;
     setItem store_failed_attempts (Json attempts))
    (fun _ => mret tt).

Definition newFailureRecord (now : Z) : FailureRecord :=
  {| count := 0; fr_reasons := []; firstAttempt := now |}.

(** [record.count++] *)
Definition incrementCount (r : FailureRecord) : FailureRecord :=
  {| count := count r + 1; fr_reasons := fr_reasons r; firstAttempt := firstAttempt r |}.

(** [record.reasons.push(x)] *)
Definition pushReason (x : Reason) (r : FailureRecord) : FailureRecord :=
  {| count := count r; fr_reasons := (fr_reasons r ++ [x])%list; firstAttempt := firstAttempt r |}.

(** [recordFailedAttempt(reason)] *)
Definition recordFailedAttempt (cfg : Config) (h : Host) (now : Z) (why : string) : M unit :=
  try_catch
    (clientId ← getClientIdentifier h;
     attempts ← gets failedAttempts;
     (if bool_decide (attempts !! clientId = None)
      then modify (set_failedAttempts <[clientId := newFailureRecord now]>)
      else mret tt);;
     modify (set_failedAttempts (alter incrementCount clientId));;
     modify (set_failedAttempts
               (alter (pushReason {| reason := why; timestamp := now |}) clientId));;
     attempts ← gets failedAttempts;
     match attempts !! clientId with
     | Some record =>
         if (maxFailedAttempts (thresholds cfg) <=? count record)%Z
         then addToBlacklist cfg now clientId (fr_reasons record);;
              modify (set_failedAttempts (delete clientId))
         else mret tt
     | None => throw TypeError
     end;;
     saveFailedAttempts)
    (fun _ => mret tt).

(** One turn of the [for ... in] loop of [cleanupExpiredEntries]: the pair
    is the blacklist object and the [modified] flag. *)
Definition cleanupStep (now : Z) (acc : gmap string BlacklistEntry * bool) (clientId : string)
    : gmap string BlacklistEntry * bool :=
  match acc.1 !! clientId with
  | Some entry =>
      if (expires entry <? now)%Z then (delete clientId acc.1, true) else acc
  | None => acc
  end.

(** [cleanupExpiredEntries()] *)
Definition cleanupExpiredEntries (now : Z) : M unit :=
  try_catch
    (item ← getItem captcha_blacklist;
     blacklist ← parseOrEmpty item;
     let '(blacklist, modified) :=
       foldl (cleanupStep now) (blacklist, false) (Object_keys blacklist) in
     if modified
     then setItem store_blacklist (Json blacklist);;
          modify (set_blacklistedIPs (fun _ => Object_keys blacklist))
     else mret tt)
    (fun _ => mret tt).

(** ** The decision facade: [checkBlacklist] *)

Record CheckResult := {
  blocked : bool;
  cr_reason : option string;
  confidence : float
}.

Definition admitted : CheckResult :=
  {| blocked := false; cr_reason := None; confidence := 0%float |}.

Definition denied (why : string) : CheckResult :=
  {| blocked := true; cr_reason := Some why; confidence := 0.9%float |}.

(** The loop over [knownBotSignatures]. *)
Definition botScore (cfg : Config) (userAgent : string) : nat :=
  fold_left (fun score sig => if JS.includes userAgent sig then S score else score)
            (knownBotSignatures cfg) 0%nat.

(** [this.visitorIP && this.isIPBlocked(this.visitorIP)] *)
Definition visitorBlocked (cfg : Config) (ip : option string) : bool :=
  match ip with
  | Some ip => isIPBlocked cfg ip
  | None => false
  end.

(** [checkBlacklist()].  [recordFailedAttempt] handles its own exceptions,
    so the result set before it is called is the one returned. *)
Definition checkBlacklist (cfg : Config) (h : Host) (now : Z) : M CheckResult :=
  try_catch
    (ip ← gets visitorIP;
     if visitorBlocked cfg ip then
       recordFailedAttempt cfg h now ("blocked_ip_" ++ default "" ip);;
       mret (denied "blocked_ip")
     else
       let userAgent := JS.toLowerCase (userAgent h) in
       if (2 <=? botScore cfg userAgent)%nat then
         recordFailedAttempt cfg h now "known_bot_useragent";;
         mret (denied "known_bot")
       else if existsb (JS.includes userAgent) (securityTools cfg) then
         recordFailedAttempt cfg h now "security_tool_detected";;
         mret (denied "security_tool")
       else
         clientFingerprint ← getClientIdentifier h;
         listed ← isClientBlacklisted now clientFingerprint;
         mret (if listed : bool then denied "blacklisted" else admitted))
    (fun _ => mret admitted).

(** ** Reading the ledger *)

(** The blacklist object the store holds: the empty object for a key never
    set and for text that does not parse. *)
Definition storedBlacklist (st : State) : gmap string BlacklistEntry :=
  match captcha_blacklist (localStorage st) with
  | Some (Json m) => m
  | _ => ∅
  end.

(** The store answers reads and writes and its blacklist text parses. *)
Definition storageWorks (st : State) : Prop :=
  readable (localStorage st) = true /\
  writable (localStorage st) = true /\
  captcha_blacklist (localStorage st) <> Some Garbage.

(** Every read and every write of the store throws. *)
Definition storageDown (st : State) : Prop :=
  readable (localStorage st) = false /\ writable (localStorage st) = false.

(** The failure count the ledger holds for a client: 0 without a record. *)
Definition failureCount (st : State) (clientId : string) : Z :=
  match failedAttempts st !! clientId with
  | Some record => count record
  | None => 0%Z
  end.

(** An entry at clean-up time: dropped when [expires < now], kept as it is
    otherwise. *)
Definition keepUnexpired (now : Z) (entry : BlacklistEntry) : option BlacklistEntry :=
  if (expires entry <? now)%Z then None else Some entry.

(** A series of [recordFailedAttempt] calls, each at its own clock value
    and with its own reason. *)
Fixpoint recordFailures (cfg : Config) (h : Host) (calls : list (Z * string)) (st : State) : State :=
  match calls with
  | [] => st
  | (now, why) :: rest => recordFailures cfg h rest (recordFailedAttempt cfg h now why st).2
  end.

Definition reasonsOf (calls : list (Z * string)) : list Reason :=
  map (fun c => {| reason := c.2; timestamp := c.1 |}) calls.

(** The record the ledger holds for a client after a series of failures
    that started without one and has not reached the threshold. *)
Definition pendingRecord (calls : list (Z * string)) : option FailureRecord :=
  match calls with
  | [] => None
  | (first, _) :: _ =>
      Some {| count := Z.of_nat (length calls);
              fr_reasons := reasonsOf calls;
              firstAttempt := first |}
  end.

(** What one recorded failure does to a client's count: it rises by one,
    or reaches [maxFailedAttempts] and the record is discarded. *)
Definition failureRecorded (cfg : Config) (clientId : string) (st st' : State) : Prop :=
  let n := (failureCount st clientId + 1)%Z in
  if (maxFailedAttempts (thresholds cfg) <=? n)%Z
  then failedAttempts st' !! clientId = None
  else failureCount st' clientId = n.

(** ** Sample hosts and states *)

(** A desktop browser with an ordinary user agent. *)
Definition desktopHost : Host := {|
  userAgent := "Mozilla/5.0 (X11; Linux x86_64) Gecko/20100101";
  language := "en-US";
  platform := "Linux x86_64";
  languages := Some ["en-US"; "en"];
  webdriver := JS.VBool false;
  pluginCount := 3;
  maxTouchPoints := 0;
  chrome := JS.VUndefined;
  InstallTrigger := JS.VUndefined;
  callPhantom := JS.VUndefined;
  _phantom := JS.VUndefined;
  phantom := JS.VUndefined;
  ontouchstart := false;
  errorStack := Some (JS.VString "Error: test");
  attr_selenium := None;
  attr_webdriver := None;
  attr_driver := None;
  screenWidth := 1920;
  screenHeight := 1080;
  canvasDataURL := Some "data:image/png;base64,AAAA"
|}.

(** A client announcing two browser families at once, with neither family's
    global and with error traces stripped. *)
Definition spoofedHost : Host := {|
  userAgent := "Mozilla/5.0 Chrome/120.0 Safari/537.36 Firefox/121.0";
  language := "en-US";
  platform := "Linux x86_64";
  languages := Some ["en-US"];
  webdriver := JS.VBool false;
  pluginCount := 0;
  maxTouchPoints := 0;
  chrome := JS.VUndefined;
  InstallTrigger := JS.VUndefined;
  callPhantom := JS.VUndefined;
  _phantom := JS.VUndefined;
  phantom := JS.VUndefined;
  ontouchstart := false;
  errorStack := Some JS.VUndefined;
  attr_selenium := None;
  attr_webdriver := None;
  attr_driver := None;
  screenWidth := 800;
  screenHeight := 600;
  canvasDataURL := None
|}.

(** A headless, driven browser: every predicate of the detector holds. *)
Definition automatedHost : Host := {|
  userAgent := "Mozilla/5.0 (Linux; Android 10) HeadlessChrome/120.0 Mobile";
  language := "en-US";
  platform := "Linux x86_64";
  languages := None;
  webdriver := JS.VBool true;
  pluginCount := 0;
  maxTouchPoints := 0;
  chrome := JS.VUndefined;
  InstallTrigger := JS.VUndefined;
  callPhantom := JS.VFunction;
  _phantom := JS.VUndefined;
  phantom := JS.VUndefined;
  ontouchstart := false;
  errorStack := Some (JS.VString "Error: test");
  attr_selenium := None;
  attr_webdriver := Some "true";
  attr_driver := None;
  screenWidth := 800;
  screenHeight := 600;
  canvasDataURL := None
|}.

Definition defaultPreferences : UserPreferences :=
  {| allowFingerprinting := true; allowStorage := true;
     allowCanvas := true; allowWebGL := true |}.

(** The page as it starts, over a store that works ([up = true]) or one
    that throws on every access ([up = false]). *)
Definition freshState (up : bool) : State := {|
  localStorage := {| readable := up; writable := up;
                     captcha_blacklist := None; captcha_failed_attempts := None |};
  failedAttempts := ∅;
  blacklistedIPs := [];
  userPreferences := defaultPreferences;
  visitorIP := None
|}.

Definition threeFailures : list (Z * string) :=
  [(10, "honeypot_filled"); (20, "no_interactions"); (30, "suspicious_fingerprint")]%Z.

(** A store holding one entry that expires at clock value 1000. *)
Definition sampleEntry : BlacklistEntry :=
  {| added := 0; expires := 1000; bl_reasons := [] |}.

Definition listedState : State := {|
  localStorage := {| readable := true; writable := true;
                     captcha_blacklist := Some (Json {["client-a" := sampleEntry]});
                     captcha_failed_attempts := None |};
  failedAttempts := ∅;
  blacklistedIPs := ["client-a"];
  userPreferences := defaultPreferences;
  visitorIP := None
|}.

(** A store with one expired and one live entry. *)
Definition mixedState : State := {|
  localStorage := {| readable := true; writable := true;
                     captcha_blacklist :=
                       Some (Json (<["client-b" := {| added := 0; expires := 5000; bl_reasons := [] |}]>
                                     {["client-a" := sampleEntry]}));
                     captcha_failed_attempts := None |};
  failedAttempts := ∅;
  blacklistedIPs := ["client-a"; "client-b"];
  userPreferences := defaultPreferences;
  visitorIP := None
|}.

(** ** Address texts *)

(** The dotted text of four numbers, as an address is written. *)
Definition dottedQuad (a b c d : N) : string :=
  JS.string_of_N a ++ "." ++ JS.string_of_N b ++ "." ++
  JS.string_of_N c ++ "." ++ JS.string_of_N d.

(** The 32-bit value of four octets. *)
Definition quadValue (a b c d : N) : Z :=
  (Z.of_N a * 2 ^ 24 + Z.of_N b * 2 ^ 16 + Z.of_N c * 2 ^ 8 + Z.of_N d)%Z.

(** A range in CIDR notation: base address, slash, prefix length. *)
Definition cidrText (a b c d p : N) : string :=
  dottedQuad a b c d ++ "/" ++ JS.string_of_N p.

(** Whether a character occurs in a string. *)
Fixpoint hasChar (c : ascii) (s : string) : bool :=
  match s with
  | EmptyString => false
  | String c' s' => Ascii.eqb c' c || hasChar c s'
  end.

(** The facts used of the decimal text of a number below 256: it parses
    back to the number and holds neither a dot nor a slash. *)
Definition octetTextOk (n : N) : bool :=
  match JS.parseInt10 (JS.string_of_N n) with
  | JS.Int z => (z =? Z.of_N n)%Z
  | JS.NaN => false
  end &&
  negb (hasChar "." (JS.string_of_N n)) &&
  negb (hasChar "/" (JS.string_of_N n)).

(** ** The runtime list and repeated visits *)

(** The runtime list names exactly the clients the stored blacklist holds. *)
Definition inStep (st : State) : Prop :=
  forall clientId, clientId ∈ blacklistedIPs st <-> is_Some (storedBlacklist st !! clientId).



(** The start of [init]: [loadBlacklist()] then [cleanupExpiredEntries()]. *)
Definition initLedger (now : Z) : M unit :=
  loadBlacklist;; cleanupExpiredEntries now.


(** Every pending failure record was counted at least once, lies below the
    threshold and holds one reason for each counted failure. *)
Definition recordsWellFormed (cfg : Config) (st : State) : Prop :=
  map_Forall (fun _ record =>
                (1 <= count record < maxFailedAttempts (thresholds cfg))%Z /\
                count record = Z.of_nat (length (fr_reasons record)))
             (failedAttempts st).

(** A session with one counted failure on record. *)
Definition pendingState : State := {|
  localStorage := {| readable := true; writable := true;
                     captcha_blacklist := None; captcha_failed_attempts := None |};
  failedAttempts :=
    {["client-a" := {| count := 1;
                       fr_reasons := [{| reason := "honeypot_filled"; timestamp := 10 |}];
                       firstAttempt := 10 |}]};
  blacklistedIPs := [];
  userPreferences := defaultPreferences;
  visitorIP := None
|}.

(** ** [validateBrowserEnvironment] ([fragment-handler.js]) *)

(** [document] and [location] are [window.document] and [window.location];
    [window.navigator] is the host the detector reads.  The storage probe
    has a handler of its own and no part in the result; nothing in the
    [try] block throws, so the outer handler is not reached. *)
Definition validateBrowserEnvironment (document location : JS.Value) (h : Host) : bool :=
  let hasDOM := JS.truthy document in
  let hasNavigator := true in
  let hasLocation := JS.truthy location in
  let isValid := hasDOM && hasNavigator && hasLocation in
  isValid && negb (highAutomationScore h).

(** ** [checkLegitimateUserIndicators] *)

Record LegitimateUserIndicators := {
  hasHumanInteractions : bool;
  hasNaturalMouseMovement : bool;
  hasKeyboardInput : bool;
  hasTouchEvents : bool;
  timeOnPage : Z;
  interactionCount : Z
}.

Definition checkLegitimateUserIndicators (indicators : LegitimateUserIndicators) : bool :=
  if (timeOnPage indicators <? 2000)%Z then false
  else if (interactionCount indicators <? 2)%Z then false
  else if hasNaturalMouseMovement indicators then true
  else if hasKeyboardInput indicators || hasTouchEvents indicators then true
  else if (5000 <? timeOnPage indicators)%Z then true
  else false.

(** ** Regular expressions *)

(** The patterns of the source are anchored at both ends and used with
    [test] only, so matching is membership of the whole text in the
    pattern's language, decided here with derivatives. *)
Module RegExp.

(** One member of a character class: a character or a range. *)
Inductive ClassItem :=
| Single (c : ascii)
| Range (lo hi : ascii).

Definition inItem (c : ascii) (i : ClassItem) : bool :=
  match i with
  | Single c' => Ascii.eqb c c'
  | Range lo hi => ((N_of_ascii lo <=? N_of_ascii c) && (N_of_ascii c <=? N_of_ascii hi))%N
  end.

(** [[...]], or [[^...]] when [negated]. *)
Record Class := { negated : bool; items : list ClassItem }.

Definition inClass (cl : Class) (c : ascii) : bool :=
  xorb (negated cl) (existsb (inItem c) (items cl)).

Inductive Pattern :=
| Never
| Nothing
| Chars (cl : Class)
| Seq (p q : Pattern)
| Or (p q : Pattern)
| Star (p : Pattern).

(** [p{n}] *)
Fixpoint Times (n : nat) (p : Pattern) : Pattern :=
  match n with
  | O => Nothing
  | S n => Seq p (Times n p)
  end.

(** [p{0,n}] *)
Fixpoint UpTo (n : nat) (p : Pattern) : Pattern :=
  match n with
  | O => Nothing
  | S n => Or Nothing (Seq p (UpTo n p))
  end.

(** [p+], [p{n,}] and [p{m,n}] *)
Definition Plus (p : Pattern) : Pattern := Seq p (Star p).
Definition AtLeast (n : nat) (p : Pattern) : Pattern := Seq (Times n p) (Star p).
Definition Between (m n : nat) (p : Pattern) : Pattern := Seq (Times m p) (UpTo (n - m) p).

Fixpoint nullable (p : Pattern) : bool :=
  match p with
  | Never => false
  | Nothing => true
  | Chars _ => false
  | Seq p q => nullable p && nullable q
  | Or p q => nullable p || nullable q
  | Star _ => true
  end.

Fixpoint deriv (c : ascii) (p : Pattern) : Pattern :=
  match p with
  | Never | Nothing => Never
  | Chars cl => if inClass cl c then Nothing else Never
  | Seq p q => Or (Seq (deriv c p) q) (if nullable p then deriv c q else Never)
  | Or p q => Or (deriv c p) (deriv c q)
  | Star p => Seq (deriv c p) (Star p)
  end.

(** [/^p$/.test(s)] *)
Fixpoint test (p : Pattern) (s : string) : bool :=
  match s with
  | EmptyString => nullable p
  | String c s' => test (deriv c p) s'
  end.

(** [s.replace(/[cl]/g, '')]: every character of the class is removed. *)
Fixpoint removeAll (cl : Class) (s : string) : string :=
  match s with
  | EmptyString => EmptyString
  | String c s' => if inClass cl c then removeAll cl s' else String c (removeAll cl s')
  end.

End RegExp.

(** ** The fragment handler ([utils.js]) *)

(** [window.location.hash] of a URL whose fragment is [fragment]: empty for
    an empty fragment, else the fragment after a [#]. *)
Definition location_hash (fragment : string) : string :=
  if String.eqb fragment "" then "" else "#" ++ fragment.

(** [getFragment()] *)
Definition getFragment (fragment : string) : string := location_hash fragment.

(** [s.substring(1)] *)
Definition substring1 (s : string) : string :=
  String.substring 1 (String.length s - 1) s.

Definition alnum : list RegExp.ClassItem :=
  [RegExp.Range "a" "z"; RegExp.Range "A" "Z"; RegExp.Range "0" "9"].

(** [/^[a-zA-Z0-9._%+-]+@[a-zA-Z0-9.-]+\.[a-zA-Z]{2,}$/] *)
Definition emailPattern : RegExp.Pattern :=
  RegExp.Seq
    (RegExp.Plus (RegExp.Chars
       {| RegExp.negated := false;
          RegExp.items := (alnum ++ [RegExp.Single "."; RegExp.Single "_"; RegExp.Single "%";
                                     RegExp.Single "+"; RegExp.Single "-"])%list |}))
    (RegExp.Seq
       (RegExp.Chars {| RegExp.negated := false; RegExp.items := [RegExp.Single "@"] |})
       (RegExp.Seq
          (RegExp.Plus (RegExp.Chars
             {| RegExp.negated := false;
                RegExp.items := (alnum ++ [RegExp.Single "."; RegExp.Single "-"])%list |}))
          (RegExp.Seq
             (RegExp.Chars {| RegExp.negated := false; RegExp.items := [RegExp.Single "."] |})
             (RegExp.AtLeast 2 (RegExp.Chars
                {| RegExp.negated := false;
                   RegExp.items := [RegExp.Range "a" "z"; RegExp.Range "A" "Z"] |}))))).

(** [/^[a-zA-Z0-9_\-@.+]{4,50}$/] *)
Definition identifierPattern : RegExp.Pattern :=
  RegExp.Between 4 50 (RegExp.Chars
    {| RegExp.negated := false;
       RegExp.items := (alnum ++ [RegExp.Single "_"; RegExp.Single "-"; RegExp.Single "@";
                                  RegExp.Single "."; RegExp.Single "+"])%list |}).

(** [extractIdentifier()] *)
Definition extractIdentifier (fragment : string) : option string :=
  let fragment := getFragment fragment in
  if String.eqb fragment "" || (String.length fragment <=? 1)%nat then None
  else
    let content := substring1 fragment in
    if RegExp.test emailPattern content then Some content
    else if RegExp.test identifierPattern content then Some content
    else None.

(** The class of [/[^a-zA-Z0-9@._\-+%]/g]. *)
Definition unsafeChars : RegExp.Class :=
  {| RegExp.negated := true;
     RegExp.items := (alnum ++ [RegExp.Single "@"; RegExp.Single "."; RegExp.Single "_";
                                RegExp.Single "-"; RegExp.Single "+"; RegExp.Single "%"])%list |}.

(** [sanitizeFragment(fragment)] *)
Definition sanitizeFragment (fragment : string) : string :=
  if String.eqb fragment "" then "" else RegExp.removeAll unsafeChars fragment.

(** [getRedirectFragment()] *)
Definition getRedirectFragment (fragment : string) : string :=
  let fragment := getFragment fragment in
  if String.eqb fragment "" || (String.length fragment <=? 1)%nat then ""
  else
    let sanitized := sanitizeFragment fragment in
    if negb (String.eqb sanitized "") then "#" ++ sanitized else "".

(** [appendFragmentToUrl(baseUrl)] *)
Definition appendFragmentToUrl (fragment baseUrl : string) : string :=
  let fragment := getRedirectFragment fragment in
  if String.eqb fragment "" then baseUrl
  else if JS.includes baseUrl "#" then hd "" (JS.split "#" baseUrl) ++ fragment
  else baseUrl ++ fragment.

(** Whether every character of a text satisfies [ok], and how often a
    character occurs in it. *)
Fixpoint allChars (ok : ascii -> bool) (s : string) : bool :=
  match s with
  | EmptyString => true
  | String c s' => ok c && allChars ok s'
  end.

Fixpoint countChar (c : ascii) (s : string) : nat :=
  match s with
  | EmptyString => O
  | String c' s' => (if Ascii.eqb c' c then 1 else 0) + countChar c s'
  end.

(** The characters [sanitizeFragment] lets through: letters, digits and
    [@ . _ - + %]. *)
Definition safeChar (c : ascii) : bool := negb (RegExp.inClass unsafeChars c).

(** The 256 characters, and the classes a pattern is built from. *)
Definition allAscii : list ascii := map ascii_of_nat (seq 0 256).

Fixpoint classes (p : RegExp.Pattern) : list RegExp.Class :=
  match p with
  | RegExp.Never | RegExp.Nothing => []
  | RegExp.Chars cl => [cl]
  | RegExp.Seq p q | RegExp.Or p q => (classes p ++ classes q)%list
  | RegExp.Star p => classes p
  end.

(** Every character a class of [p] accepts satisfies [ok]. *)
Definition withinb (ok : ascii -> bool) (p : RegExp.Pattern) : bool :=
  forallb (fun cl => forallb (fun c => implb (RegExp.inClass cl c) (ok c)) allAscii)
          (classes p).

(** A pattern that matches no text, by its shape. *)
Fixpoint isNever (p : RegExp.Pattern) : bool :=
  match p with
  | RegExp.Never => true
  | RegExp.Nothing | RegExp.Chars _ | RegExp.Star _ => false
  | RegExp.Seq p q => isNever p || isNever q
  | RegExp.Or p q => isNever p && isNever q
  end.

(** ** Fragments kept across a redirect ([fragment-handler.js]) *)

(** [sessionStorage] or [localStorage] as the fragment code uses it: every
    access throws when the store is not [available], [setItem] also when it
    has no room; [redirectFragment] is the item of that name, [None] when
    it was never set. *)
Record WebStorage := {
  available : bool;
  hasRoom : bool;
  redirectFragment : option string
}.

(** The page: the fragment of its address and the two stores. *)
Record Page := {
  hashFragment : string;
  sessionStore : WebStorage;
  localStore : WebStorage
}.

Definition set_item (v : option string) (s : WebStorage) : WebStorage :=
  {| available := available s; hasRoom := hasRoom s; redirectFragment := v |}.

Definition set_sessionStore (f : WebStorage -> WebStorage) (p : Page) : Page :=
  {| hashFragment := hashFragment p;
     sessionStore := f (sessionStore p);
     localStore := localStore p |}.

Definition set_localStore (f : WebStorage -> WebStorage) (p : Page) : Page :=
  {| hashFragment := hashFragment p;
     sessionStore := sessionStore p;
     localStore := f (localStore p) |}.

Definition set_hashFragment (fragment : string) (p : Page) : Page :=
  {| hashFragment := fragment;
     sessionStore := sessionStore p;
     localStore := localStore p |}.

(** [cleanupFragmentStorage()]: the first [removeItem] that throws ends it. *)
Definition cleanupFragmentStorage (p : Page) : Page :=
  if available (sessionStore p) then
    let p := set_sessionStore (set_item None) p in
    if available (localStore p) then set_localStore (set_item None) p else p
  else p.

(** [storeCurrentFragment()]: the result and the page afterwards. *)
Definition storeCurrentFragment (p : Page) : bool * Page :=
  let hash := location_hash (hashFragment p) in
  if negb (String.eqb hash "") then
    let currentFragment := substring1 hash in
    if available (sessionStore p) && hasRoom (sessionStore p) then
      let p := set_sessionStore (set_item (Some currentFragment)) p in
      if available (localStore p) && hasRoom (localStore p) then
        (true, set_localStore (set_item (Some currentFragment)) p)
      else (false, p)
    else (false, p)
  else (false, p).

(** A stored item that is a non-empty text. *)
Definition presentText (item : option string) : bool :=
  match item with
  | Some text => negb (String.eqb text "")
  | None => false
  end.

(** [restoreFragmentFromStorage()].  [setHash] is what the address's
    fragment becomes when [window.location.hash] is assigned a text. *)
Definition restoreFragmentFromStorage (setHash : string -> string) (p : Page) : Page :=
  if available (sessionStore p) then
    let fromSession := redirectFragment (sessionStore p) in
    if presentText fromSession || available (localStore p) then
      let storedFragment :=
        if presentText fromSession then fromSession else redirectFragment (localStore p) in
      match storedFragment with
      | Some text =>
          if negb (String.eqb text "") then
            if String.eqb (location_hash (hashFragment p)) ""
            then cleanupFragmentStorage (set_hashFragment (setHash text) p)
            else cleanupFragmentStorage p
          else p
      | None => p
      end
    else p
  else p.

(** ** The log of human visits ([utils.js]) *)

Record Visit := {
  v_timestamp : Z;
  v_ip : option string;
  v_userAgent : string;
  v_fingerprint : string;
  v_event : string
}.

(** [localStorage] as [logHumanVisit] uses it: the item [human_logs]. *)
Record LogStorage := {
  log_readable : bool;
  log_writable : bool;
  human_logs : option (Stored (list Visit))
}.

(** [logs.splice(0, logs.length - 100)] when [logs.length > 100]. *)
Definition keepLast100 (logs : list Visit) : list Visit :=
  if (100 <? length logs)%nat then drop (length logs - 100) logs else logs.

(** [logHumanVisit(eventType)]; a failure at any step leaves the store as
    it is. *)
Definition logHumanVisit (h : Host) (st : State) (now : Z) (eventType : string)
    (store : LogStorage) : LogStorage :=
  if log_readable store then
    match human_logs store with
    | Some Garbage => store
    | item =>
        let logs := match item with Some (Json logs) => logs | _ => [] end in
        let logs :=
          (logs ++ [{| v_timestamp := now;
                       v_ip := visitorIP st;
                       v_userAgent := userAgent h;
                       v_fingerprint := clientIdentifier h (userPreferences st);
                       v_event := eventType |}])%list in
        let logs := keepLast100 logs in
        if log_writable store
        then {| log_readable := log_readable store;
                log_writable := log_writable store;
                human_logs := Some (Json logs) |}
        else store
    end
  else store.

(** The visit a call logs, and a series of calls. *)
Definition visitOf (h : Host) (st : State) (call : Z * string) : Visit :=
  {| v_timestamp := call.1;
     v_ip := visitorIP st;
     v_userAgent := userAgent h;
     v_fingerprint := clientIdentifier h (userPreferences st);
     v_event := call.2 |}.

Fixpoint logHumanVisits (h : Host) (st : State) (calls : list (Z * string))
    (store : LogStorage) : LogStorage :=
  match calls with
  | [] => store
  | (now, eventType) :: rest => logHumanVisits h st rest (logHumanVisit h st now eventType store)
  end.

(** The logged visits a store holds: none when the item is missing or does
    not parse. *)
Definition storedVisits (store : LogStorage) : list Visit :=
  match human_logs store with
  | Some (Json logs) => logs
  | _ => []
  end.

Definition emptyLog : LogStorage :=
  {| log_readable := true; log_writable := true; human_logs := None |}.

(** A page with a fragment over stores that work. *)
Definition taggedPage : Page :=
  {| hashFragment := "jane.doe@example.org";
     sessionStore := {| available := true; hasRoom := true; redirectFragment := None |};
     localStore := {| available := true; hasRoom := true; redirectFragment := None |} |}.

(** * Properties *)

(** Splits a conjunction of closed facts and evaluates each. *)
Ltac evaluate_each :=
  repeat match goal with |- _ /\ _ => split end; vm_compute;
  repeat match goal with |- _ /\ _ => split end; try reflexivity.

(** ** Suspicious pattern evaluator *)

Section Suspicion.

Variable cfg : Config.
Variable h : Host.

(** The [mismatchedUA] block counts one check and marks it zero, one or two
    times: once per browser family announced without its global. *)
Lemma checkMismatchedUA_counts c :
  totalChecks (checkMismatchedUA h c) = S (totalChecks c) /\
  (suspiciousCount c <= suspiciousCount (checkMismatchedUA h c) <= suspiciousCount c + 2)%nat.
Proof.
  unfold checkMismatchedUA.
  destruct (JS.includes _ "chrome" && _), (JS.includes _ "firefox" && _); cbn; lia.
Qed.

(** The [tamperedDOM] block counts one check and marks it at most once. *)
Lemma checkTamperedDOM_counts c :
  totalChecks (checkTamperedDOM h c) = S (totalChecks c) /\
  (suspiciousCount c <= suspiciousCount (checkTamperedDOM h c) <= suspiciousCount c + 1)%nat.
Proof.
  unfold checkTamperedDOM.
  destruct (errorStack h) as [stack|]; [destruct (negb _ || negb _)|]; cbn; lia.
Qed.

Lemma suspicionCounters_range :
  let c := suspicionCounters cfg h in
  totalChecks c = (Nat.b2n (mismatchedUA (suspiciousPatterns cfg)) +
                   Nat.b2n (tamperedDOM (suspiciousPatterns cfg)))%nat /\
  (suspiciousCount c <= 2 * Nat.b2n (mismatchedUA (suspiciousPatterns cfg)) +
                        Nat.b2n (tamperedDOM (suspiciousPatterns cfg)))%nat.
Proof.
  unfold suspicionCounters. cbv zeta.
  set (c0 := {| suspiciousCount := 0; totalChecks := 0 |}).
  destruct (mismatchedUA _), (tamperedDOM _); cbn [Nat.b2n].
  - destruct (checkMismatchedUA_counts c0) as [E1 B1].
    destruct (checkTamperedDOM_counts (checkMismatchedUA h c0)) as [E2 B2].
    rewrite E2, E1. cbn in *. lia.
  - destruct (checkMismatchedUA_counts c0) as [E1 B1]. rewrite E1. cbn in *. lia.
  - destruct (checkTamperedDOM_counts c0) as [E2 B2]. rewrite E2. cbn in *. lia.
  - cbn. lia.
Qed.

End Suspicion.

(** The double comparison of the verdict agrees with the comparison of the
    exact quotient against 3/10 on every pair of counters the evaluator can
    reach. *)
Lemma tooSuspicious_exact s t :
  (s <= 3)%nat -> (t <= 2)%nat ->
  tooSuspicious {| suspiciousCount := s; totalChecks := t |} = true <->
  (0 < t)%nat /\ (3 # 10 < inject_Z (Z.of_nat s) / inject_Z (Z.of_nat t))%Q.
Proof.
  intros Hs Ht.
  destruct s as [|[|[|[|s]]]]; [| | | |lia]; destruct t as [|[|[|t]]]; try lia;
    (split;
     [ intros H; vm_compute in H;
       first [ discriminate H | split; [lia | reflexivity] ]
     | intros [H1 H2];
       first [ exfalso; lia | vm_compute in H2; discriminate H2 | vm_compute; reflexivity ] ]).
Qed.

Lemma suspicionCounters_small cfg h :
  (suspiciousCount (suspicionCounters cfg h) <= 3)%nat /\
  (totalChecks (suspicionCounters cfg h) <= 2)%nat.
Proof.
  destruct (suspicionCounters_range cfg h) as [Ht Hs].
  destruct (mismatchedUA _), (tamperedDOM _); cbn in *; lia.
Qed.

(** C4. In every environment the evaluator answers "too suspicious" exactly
    when at least one check ran and the quotient of the suspicious checks by
    the checks that ran exceeds 3/10; with no check enabled nothing is
    divided, the ratio is 0 and the answer is "not suspicious". *)
Theorem hasTooManySuspiciousPatterns_iff cfg h fingerprint :
  let c := suspicionCounters cfg h in
  (hasTooManySuspiciousPatterns cfg h fingerprint = true <->
     (0 < totalChecks c)%nat /\
     (3 # 10 < inject_Z (Z.of_nat (suspiciousCount c)) / inject_Z (Z.of_nat (totalChecks c)))%Q) /\
  (hasTooManySuspiciousPatterns cfg h fingerprint = true <-> (3 # 10 < suspicionRatio c)%Q) /\
  (totalChecks c = 0%nat ->
     suspicionRatio c = 0%Q /\ hasTooManySuspiciousPatterns cfg h fingerprint = false).
Proof.
  intros c. unfold hasTooManySuspiciousPatterns. fold c.
  destruct (suspicionCounters_small cfg h) as [Hs Ht]. fold c in Hs, Ht.
  destruct c as [s t]; cbn [suspiciousCount totalChecks] in *.
  pose proof (tooSuspicious_exact s t Hs Ht) as Hex.
  split; [exact Hex|]. split.
  - unfold suspicionRatio; cbn [suspiciousCount totalChecks].
    destruct t as [|t]; cbn [Nat.eqb].
    + split; [intros H; apply Hex in H; lia | intros H; vm_compute in H; discriminate H].
    + rewrite Hex. split; [intros [_ H]; exact H | intros H; split; [lia | exact H]].
  - intros ->. split; [reflexivity|]. reflexivity.
Qed.

(** C5 (as the code has it). Each enabled check raises [totalChecks] by
    exactly one; the tampered-trace check marks at most one suspicion, the
    identity/feature check up to two (one per browser family), so
    [suspiciousCount] stays within twice [totalChecks] and the ratio within 2. *)
Theorem suspicion_counts_bounded cfg h :
  let c := suspicionCounters cfg h in
  totalChecks c = (Nat.b2n (mismatchedUA (suspiciousPatterns cfg)) +
                   Nat.b2n (tamperedDOM (suspiciousPatterns cfg)))%nat /\
  (suspiciousCount c <= 2 * Nat.b2n (mismatchedUA (suspiciousPatterns cfg)) +
                        Nat.b2n (tamperedDOM (suspiciousPatterns cfg)))%nat /\
  (suspiciousCount c <= 2 * totalChecks c)%nat /\
  (suspicionRatio c <= 2)%Q.
Proof.
  intros c. destruct (suspicionCounters_range cfg h) as [Ht Hs]. fold c in Ht, Hs.
  split; [exact Ht|]. split; [exact Hs|].
  assert (Hle : (suspiciousCount c <= 2 * totalChecks c)%nat) by lia.
  split; [exact Hle|].
  unfold suspicionRatio. destruct (totalChecks c) as [|t] eqn:Et; cbn [Nat.eqb].
  - discriminate.
  - apply Qle_shift_div_r.
    + unfold Qlt; cbn. lia.
    + unfold Qle; cbn. lia.
Qed.

(** C5, refuted as stated: under the shipped configuration a client that
    announces Chrome and Firefox without either global, and strips error
    traces, is marked three times over two checks. *)
Lemma suspicion_counts_counterexample :
  let c := suspicionCounters defaultConfig spoofedHost in
  c = {| suspiciousCount := 3; totalChecks := 2 |} /\
  (totalChecks c < suspiciousCount c)%nat /\
  (1 < suspicionRatio c)%Q /\
  suspiciousCount (checkMismatchedUA spoofedHost {| suspiciousCount := 0; totalChecks := 0 |}) = 2%nat.
Proof. cbv zeta. evaluate_each. Qed.

Lemma eqb_undefined_iff v v' :
  (JS.typeof v = "undefined" <-> JS.typeof v' = "undefined") ->
  String.eqb (JS.typeof v) "undefined" = String.eqb (JS.typeof v') "undefined".
Proof.
  intros H.
  destruct (String.eqb_spec (JS.typeof v) "undefined") as [E|E],
           (String.eqb_spec (JS.typeof v') "undefined") as [E'|E'];
    try reflexivity; exfalso; tauto.
Qed.

(** C10. The verdict never depends on the fingerprint passed in, and two
    environments with the same user agent, the same presence of the
    [chrome] and [InstallTrigger] globals and the same error-trace behaviour
    get the same verdict whatever the fingerprints. *)
Theorem hasTooManySuspiciousPatterns_ignores_fingerprint cfg h f1 :
  (forall f2, hasTooManySuspiciousPatterns cfg h f1 = hasTooManySuspiciousPatterns cfg h f2) /\
  (forall h' f2,
     userAgent h = userAgent h' ->
     (JS.typeof (chrome h) = "undefined" <-> JS.typeof (chrome h') = "undefined") ->
     (JS.typeof (InstallTrigger h) = "undefined" <->
      JS.typeof (InstallTrigger h') = "undefined") ->
     errorStack h = errorStack h' ->
     hasTooManySuspiciousPatterns cfg h f1 = hasTooManySuspiciousPatterns cfg h' f2).
Proof.
  split; [reflexivity|].
  intros h' f2 Hua Hch Hit Hes.
  unfold hasTooManySuspiciousPatterns, suspicionCounters, checkMismatchedUA, checkTamperedDOM.
  rewrite Hua, Hes, (eqb_undefined_iff _ _ Hch), (eqb_undefined_iff _ _ Hit). reflexivity.
Qed.

(** ** Automation detector *)

(** C6. In every environment the score [detectAutomation] returns is a
    finite double that denotes exactly the weighted sum of the table: 3, 2,
    3, 3 and 1/2 for the primary predicates that hold and, only over a
    positive primary sum, 1/2, 1 and 1/2 for the secondary ones.  The flags
    report the primary predicates, and no cut-off is applied: a score of 8
    or more comes back as it is. *)
Theorem detectAutomation_score h :
  let r := detectAutomation h in
  (exists q, Q_of_float (automationScore r) = Some q /\ (q == weightedScore h)%Q) /\
  r_webdriver r = hasWebdriverFlag h /\
  r_headlessUserAgent r = hasHeadlessUA h /\
  r_phantomJS r = hasPhantomGlobal h /\
  r_seleniumAttrs r = hasSeleniumAttr h /\
  r_noPlugins r = hasNoPlugins h.
Proof.
  unfold detectAutomation, weightedScore, primaryScore, secondaryScore. cbv zeta.
  destruct (hasWebdriverFlag h), (hasHeadlessUA h), (hasPhantomGlobal h),
    (hasSeleniumAttr h), (hasNoPlugins h), (lacksLanguages h),
    (chromeWithoutGlobal h), (mobileWithoutTouch h);
    (split; [eexists; split; [vm_compute; reflexivity | vm_compute; reflexivity]
            | repeat split; reflexivity]).
Qed.

(** The highest score, 13.5, comes back as it is; the cut-off at 8 is the
    caller's. *)
Example detectAutomation_all_predicates :
  automationScore (detectAutomation automatedHost) = 13.5%float /\
  (weightedScore automatedHost == 27 # 2)%Q /\
  highAutomationScore automatedHost = true /\
  automationScore (detectAutomation desktopHost) = 0%float.
Proof. evaluate_each. Qed.

(** ** Static IP blocking *)

Section Int32.

Local Open Scope Z_scope.

Lemma ToInt32_range z : - JS.two31 <= JS.ToInt32 (JS.Int z) < JS.two31.
Proof.
  unfold JS.ToInt32, JS.two31, JS.two32.
  pose proof (Z.mod_pos_bound (z + 2147483648) 4294967296). lia.
Qed.

Lemma ToInt32_congr z : JS.ToInt32 (JS.Int z) mod 2 ^ 32 = z mod 2 ^ 32.
Proof.
  unfold JS.ToInt32, JS.two31, JS.two32.
  change (2 ^ 32) with 4294967296.
  rewrite <- Zminus_mod_idemp_l, Z.mod_mod by lia.
  rewrite Zminus_mod_idemp_l. f_equal. lia.
Qed.

(** The low 32 bits of a number survive the conversion to [int32]. *)
Lemma ToInt32_testbit_low z i :
  0 <= i < 32 -> Z.testbit (JS.ToInt32 (JS.Int z)) i = Z.testbit z i.
Proof.
  intros Hi.
  rewrite <- (Z.mod_pow2_bits_low (JS.ToInt32 (JS.Int z)) 32 i) by lia.
  rewrite ToInt32_congr. apply Z.mod_pow2_bits_low. lia.
Qed.

(** Above them the sign bit is repeated. *)
Lemma int32_testbit_high x i :
  - JS.two31 <= x < JS.two31 -> 31 <= i -> Z.testbit x i = Z.testbit x 31.
Proof.
  unfold JS.two31. intros Hx Hi.
  assert (Hd : forall j, 0 <= j -> Z.testbit x (j + 31) = Z.testbit (x / 2 ^ 31) j)
    by (intros; symmetry; apply Z.div_pow2_bits; lia).
  assert (Hq : x / 2 ^ 31 = 0 \/ x / 2 ^ 31 = -1).
  { change (2 ^ 31) with 2147483648.
    assert (-1 <= x / 2147483648 < 1)
      by (split; [apply Z.div_le_lower_bound | apply Z.div_lt_upper_bound]; lia).
    lia. }
  transitivity (Z.testbit (x / 2 ^ 31) (i - 31)).
  { rewrite <- Hd by lia. f_equal. lia. }
  transitivity (Z.testbit (x / 2 ^ 31) 0).
  { destruct Hq as [-> | ->]; rewrite ?Z.bits_0, ?Z.bits_m1 by lia; reflexivity. }
  rewrite <- Hd by lia. reflexivity.
Qed.

Lemma neg_pow2_testbit k i :
  0 <= k -> 0 <= i -> Z.testbit (- 2 ^ k) i = (k <=? i).
Proof.
  intros Hk Hi.
  replace (- 2 ^ k) with (Z.lnot (Z.ones k))
    by (rewrite Z.ones_equiv; unfold Z.lnot; lia).
  rewrite Z.lnot_spec by lia.
  destruct (Z.leb_spec k i).
  - rewrite Z.ones_spec_high by lia. reflexivity.
  - rewrite Z.ones_spec_low by lia. reflexivity.
Qed.

(** Masking with [-2^k] keeps exactly the bits from position [k] up. *)
Lemma land_neg_pow2_eq x y k :
  0 <= k ->
  Z.land x (- 2 ^ k) = Z.land y (- 2 ^ k) <->
  forall i, k <= i -> Z.testbit x i = Z.testbit y i.
Proof.
  intros Hk. split.
  - intros H i Hi.
    apply (f_equal (fun z => Z.testbit z i)) in H.
    rewrite !Z.land_spec, neg_pow2_testbit in H by lia.
    replace (k <=? i) with true in H by (symmetry; apply Z.leb_le; lia).
    rewrite !andb_true_r in H. exact H.
  - intros H. apply Z.bits_inj'. intros i Hi.
    rewrite !Z.land_spec, neg_pow2_testbit by lia.
    destruct (Z.leb_spec k i).
    + rewrite !andb_true_r. apply H. lia.
    + rewrite !andb_false_r. reflexivity.
Qed.

(** For a prefix length from 1 to 32 the mask, read as [&] reads it, is
    [-2^(32 - prefix)]: ones on the top [prefix] bits of the 32. *)
Lemma subnetMask_int32 p :
  1 <= p <= 32 -> JS.ToInt32 (subnetMask (JS.Int p)) = - 2 ^ (32 - p).
Proof.
  intros Hp.
  assert (H : exists n : nat, (n < 32)%nat /\ p = Z.of_nat n + 1)
    by (exists (Z.to_nat (p - 1)); lia).
  destruct H as (n & Hn & ->).
  do 32 (destruct n as [|n]; [vm_compute; reflexivity|]). lia.
Qed.

(** The network comparison of [isIPInRange], bit by bit: for a prefix
    length from 1 to 32 it holds exactly when the two addresses agree on
    the top [prefix] bits of their 32. *)
Lemma sameNetwork_bits a b p :
  1 <= p <= 32 ->
  sameNetwork (JS.Int a) (JS.Int b) (JS.Int p) = true <->
  forall i, 32 - p <= i < 32 -> Z.testbit a i = Z.testbit b i.
Proof.
  intros Hp. unfold sameNetwork, JS.band, JS.strict_eq.
  rewrite subnetMask_int32 by lia.
  rewrite Z.eqb_eq, land_neg_pow2_eq by lia. split.
  - intros H i Hi.
    rewrite <- (ToInt32_testbit_low a i), <- (ToInt32_testbit_low b i) by lia.
    apply H. lia.
  - intros H i Hi. destruct (Z_lt_le_dec i 32).
    + rewrite !ToInt32_testbit_low by lia. apply H. lia.
    + rewrite !(int32_testbit_high _ i) by (try apply ToInt32_range; lia).
      rewrite !ToInt32_testbit_low by lia. apply H. lia.
Qed.

End Int32.

Lemma existsb_eqb_In ip ips : In ip ips -> existsb (String.eqb ip) ips = true.
Proof.
  intros H. apply existsb_exists. exists ip. split; [exact H | apply String.eqb_refl].
Qed.

(** An address on the static list is blocked. *)
Lemma isIPBlocked_listed cfg ip :
  ip <> "" -> In ip (knownMaliciousIPs cfg) -> isIPBlocked cfg ip = true.
Proof.
  intros Hne Hin. unfold isIPBlocked.
  destruct (String.eqb_spec ip ""); [contradiction|].
  rewrite existsb_eqb_In by exact Hin. reflexivity.
Qed.

(** An address that agrees with the base of a configured range on the top
    [prefix] bits is blocked, for every prefix length from 1 to 32. *)
Lemma isIPBlocked_in_range cfg ip cidr base p a b :
  ip <> "" ->
  In cidr (blockedIPRanges cfg) ->
  splitCidr cidr = (base, JS.Int p) ->
  (1 <= p <= 32)%Z ->
  ipToInt ip = JS.Int a ->
  ipToInt base = JS.Int b ->
  (forall i, (32 - p <= i < 32)%Z -> Z.testbit a i = Z.testbit b i) ->
  isIPBlocked cfg ip = true.
Proof.
  intros Hne Hin Hsplit Hp Ha Hb Hbits. unfold isIPBlocked.
  destruct (String.eqb_spec ip ""); [contradiction|].
  destruct (existsb (String.eqb ip) _); [reflexivity|].
  apply existsb_exists. exists cidr. split; [exact Hin|].
  unfold isIPInRange. rewrite Hsplit, Ha, Hb.
  apply sameNetwork_bits; assumption.
Qed.

(** The two addresses of the specification under the shipped lists. *)
Lemma isIPBlocked_examples :
  In "104.164.173.0/24" (blockedIPRanges defaultConfig) /\
  isIPBlocked defaultConfig "104.164.173.50" = true /\
  isIPBlocked defaultConfig "8.8.8.8" = false.
Proof. split; [left; reflexivity|]. evaluate_each. Qed.

(** C7, where the code departs from it.  With the range 0.0.0.0/0 added
    through [configureMaliciousIPs], 8.8.8.8 agrees with the base address
    on the top 0 bits (on none, that is), yet it is not blocked: the shift
    count 32 is taken modulo 32, the mask is all ones, and only the base
    address itself matches. *)
Theorem isIPBlocked_prefix0 :
  let cfg := configureMaliciousIPs [] ["0.0.0.0/0"] defaultConfig in
  In "0.0.0.0/0" (blockedIPRanges cfg) /\
  splitCidr "0.0.0.0/0" = ("0.0.0.0", JS.Int 0) /\
  subnetMask (JS.Int 0) = JS.Int 4294967295 /\
  (forall i, (32 - 0 <= i < 32)%Z ->
     Z.testbit 134744072 i = Z.testbit 0 i) /\
  ipToInt "8.8.8.8" = JS.Int 134744072 /\
  isIPInRange "8.8.8.8" "0.0.0.0/0" = false /\
  isIPBlocked cfg "8.8.8.8" = false.
Proof.
  cbv zeta. split; [right; right; left; reflexivity|].
  split; [reflexivity|]. split; [reflexivity|].
  split; [intros i Hi; lia|].
  evaluate_each.
Qed.

(** ** The penalty ledger *)

(** Unfolds the plumbing of [M]. *)
Ltac unfold_M :=
  unfold try_catch, mbind, M_bind, mret, M_ret, throw, gets, modify, getItem, setItem in *.

(** [isClientBlacklisted] in one expression: it never throws and never
    writes. *)
Lemma isClientBlacklisted_run now clientId st :
  isClientBlacklisted now clientId st =
  (Normal (readable (localStorage st) &&
           match storedBlacklist st !! clientId with
           | Some entry => (now <? expires entry)%Z
           | None => false
           end),
   st).
Proof.
  unfold isClientBlacklisted, storedBlacklist, parseOrEmpty. unfold_M.
  destruct (readable (localStorage st)); [|reflexivity].
  destruct (captcha_blacklist (localStorage st)) as [[|m]|]; cbn;
    rewrite ?lookup_empty; reflexivity.
Qed.

(** C2 (as the code has it). [isClientBlacklisted] leaves the state as it
    is and returns [true] exactly when the store can be read and holds an
    entry for the client with [now < expires]: the bound is strict. *)
Theorem isClientBlacklisted_iff st now clientId :
  exists b,
    isClientBlacklisted now clientId st = (Normal b, st) /\
    (b = true <->
       readable (localStorage st) = true /\
       exists entry, storedBlacklist st !! clientId = Some entry /\ (now < expires entry)%Z).
Proof.
  rewrite isClientBlacklisted_run. eexists. split; [reflexivity|].
  rewrite andb_true_iff.
  destruct (storedBlacklist st !! clientId) as [entry|].
  - rewrite Z.ltb_lt. split.
    + intros [Hr Hlt]. split; [exact Hr|]. exists entry. split; [reflexivity | exact Hlt].
    + intros (Hr & e & [= <-] & Hlt). split; assumption.
  - split.
    + intros [_ H]. discriminate H.
    + intros (_ & e & H & _). discriminate H.
Qed.

(** C2, refuted as stated: at the instant [now = expires] the entry is
    still in the store, yet the client is reported as not blacklisted. *)
Lemma isClientBlacklisted_at_expiry :
  storedBlacklist listedState !! "client-a" = Some sampleEntry /\
  (1000 <= expires sampleEntry)%Z /\
  isClientBlacklisted 1000 "client-a" listedState = (Normal false, listedState) /\
  isClientBlacklisted 999 "client-a" listedState = (Normal true, listedState).
Proof. evaluate_each. congruence. Qed.

(** *** Clean-up *)

Section Cleanup.

Variable now : Z.

(** The loop of [cleanupExpiredEntries] over any list of keys: a visited
    key keeps its entry unless it has expired, the other keys are left
    alone. *)
Lemma cleanup_loop_lookup keys (m : gmap string BlacklistEntry) flag k :
  (foldl (cleanupStep now) (m, flag) keys).1 !! k =
  if bool_decide (k ∈ keys) then m !! k ≫= keepUnexpired now else m !! k.
Proof.
  revert m flag. induction keys as [|k0 keys IH]; intros m flag; cbn [foldl].
  - reflexivity.
  - unfold cleanupStep at 2. cbn [fst].
    assert (Hcons : bool_decide (k ∈ k0 :: keys) = bool_decide (k = k0) || bool_decide (k ∈ keys)).
    { destruct (decide (k = k0)) as [->|Hne].
      - rewrite (bool_decide_eq_true_2 (k0 = k0)) by reflexivity.
        rewrite (bool_decide_eq_true_2 (k0 ∈ k0 :: keys)) by left. reflexivity.
      - rewrite (bool_decide_eq_false_2 (k = k0)) by exact Hne. cbn [orb].
        apply bool_decide_ext. rewrite elem_of_cons. tauto. }
    rewrite Hcons.
    destruct (m !! k0) as [e0|] eqn:Hk0; [destruct (expires e0 <? now)%Z eqn:Hexp|];
      rewrite IH; (destruct (decide (k = k0)) as [->|Hne];
      [ rewrite (bool_decide_eq_true_2 (k0 = k0)) by reflexivity; cbn [orb];
        rewrite ?lookup_delete_eq, ?Hk0; cbn; unfold keepUnexpired; rewrite ?Hexp;
        destruct (bool_decide (k0 ∈ keys)); reflexivity
      | rewrite (bool_decide_eq_false_2 (k = k0)) by exact Hne; cbn [orb];
        rewrite ?lookup_delete_ne by congruence; reflexivity ]).
Qed.

(** Once [modified] is set it stays set. *)
Lemma cleanup_loop_flag keys (m : gmap string BlacklistEntry) :
  (foldl (cleanupStep now) (m, true) keys).2 = true.
Proof.
  revert m. induction keys as [|k0 keys IH]; intros m; cbn [foldl]; [reflexivity|].
  unfold cleanupStep at 2. cbn [fst].
  destruct (m !! k0) as [e0|]; [destruct (expires e0 <? now)%Z|]; apply IH.
Qed.

(** A loop that ends with [modified] unset has changed nothing. *)
Lemma cleanup_loop_unmodified keys (m : gmap string BlacklistEntry) flag :
  (foldl (cleanupStep now) (m, flag) keys).2 = false ->
  foldl (cleanupStep now) (m, flag) keys = (m, false).
Proof.
  revert m flag. induction keys as [|k0 keys IH]; intros m flag; cbn [foldl].
  - cbn. intros ->. reflexivity.
  - unfold cleanupStep at 2 4. cbn [fst].
    destruct (m !! k0) as [e0|]; [destruct (expires e0 <? now)%Z|]; try apply IH.
    intros H. rewrite cleanup_loop_flag in H. discriminate H.
Qed.

(** Over all the keys of the object the loop drops exactly the expired
    entries. *)
Lemma cleanup_loop_all (m : gmap string BlacklistEntry) k :
  (foldl (cleanupStep now) (m, false) (Object_keys m)).1 !! k = m !! k ≫= keepUnexpired now.
Proof.
  rewrite cleanup_loop_lookup. destruct (bool_decide _) eqn:Hin; [reflexivity|].
  apply bool_decide_eq_false_1 in Hin.
  destruct (m !! k) as [e|] eqn:Hk; [|reflexivity].
  exfalso. apply Hin. unfold Object_keys.
  apply list_elem_of_fmap. exists (k, e). split; [reflexivity|].
  apply elem_of_map_to_list. exact Hk.
Qed.

(** After a pass nothing that is left has expired. *)
Lemma cleanup_loop_fixpoint (m : gmap string BlacklistEntry) :
  let m' := (foldl (cleanupStep now) (m, false) (Object_keys m)).1 in
  foldl (cleanupStep now) (m', false) (Object_keys m') = (m', false).
Proof.
  intros m'. apply cleanup_loop_unmodified.
  destruct (foldl (cleanupStep now) (m', false) (Object_keys m')).2 eqn:Hflag; [|reflexivity].
  exfalso.
  assert (Hall : forall k e, m' !! k = Some e -> (expires e <? now)%Z = false).
  { intros k e. unfold m'. rewrite cleanup_loop_all.
    destruct (m !! k) as [e0|]; cbn; [|discriminate].
    unfold keepUnexpired. destruct (expires e0 <? now)%Z eqn:He0; [discriminate|].
    intros [= <-]. exact He0. }
  clear -Hflag Hall. revert Hflag.
  generalize (Object_keys m'). intros keys.
  assert (Hgen : forall b, (foldl (cleanupStep now) (m', b) keys).2 = b).
  { induction keys as [|k0 keys IH]; intros b; cbn [foldl]; [reflexivity|].
    unfold cleanupStep at 2. cbn [fst].
    destruct (m' !! k0) as [e0|] eqn:Hk0; [|apply IH].
    rewrite (Hall _ _ Hk0). apply IH. }
  rewrite Hgen. discriminate.
Qed.

End Cleanup.

Lemma Object_keys_empty {A} : Object_keys (∅ : gmap string A) = [].
Proof. unfold Object_keys. rewrite map_to_list_empty. reflexivity. Qed.

(** What a clean-up pass does to the state, case by case. *)
Lemma cleanupExpiredEntries_run now st :
  cleanupExpiredEntries now st =
  (Normal tt,
   if readable (localStorage st) then
     match captcha_blacklist (localStorage st) with
     | Some (Json m) =>
         let r := foldl (cleanupStep now) (m, false) (Object_keys m) in
         if r.2 && writable (localStorage st)
         then set_blacklistedIPs (fun _ => Object_keys r.1)
                (set_localStorage (store_blacklist (Json r.1)) st)
         else st
     | _ => st
     end
   else st).
Proof.
  unfold cleanupExpiredEntries, parseOrEmpty. unfold_M.
  destruct (readable (localStorage st)); [|reflexivity].
  destruct (captcha_blacklist (localStorage st)) as [[|m]|]; cbn.
  - reflexivity.
  - destruct (foldl (cleanupStep now) (m, false) (Object_keys m)) as [m' flag]. cbn.
    destruct flag; [|reflexivity]. cbn.
    destruct (writable (localStorage st)); reflexivity.
  - rewrite Object_keys_empty. reflexivity.
Qed.

(** A second pass at the same instant changes nothing, whatever the store
    does. *)
Lemma cleanupExpiredEntries_idempotent now st :
  let st' := (cleanupExpiredEntries now st).2 in
  cleanupExpiredEntries now st' = (Normal tt, st').
Proof.
  cbv zeta. rewrite (cleanupExpiredEntries_run now st). cbn [snd].
  destruct (readable (localStorage st)) eqn:Hr.
  - destruct (captcha_blacklist (localStorage st)) as [[|m]|] eqn:Hb.
    + rewrite cleanupExpiredEntries_run, Hr, Hb. reflexivity.
    + cbv zeta.
      destruct ((foldl (cleanupStep now) (m, false) (Object_keys m)).2) eqn:Hflag;
        destruct (writable (localStorage st)) eqn:Hw; cbn [andb].
      * rewrite cleanupExpiredEntries_run. cbn. rewrite Hr.
        rewrite (cleanup_loop_fixpoint now m). cbn. reflexivity.
      * rewrite cleanupExpiredEntries_run, Hr, Hb. cbv zeta. rewrite Hflag, Hw. reflexivity.
      * rewrite cleanupExpiredEntries_run, Hr, Hb. cbv zeta. rewrite Hflag. reflexivity.
      * rewrite cleanupExpiredEntries_run, Hr, Hb. cbv zeta. rewrite Hflag. reflexivity.
    + rewrite cleanupExpiredEntries_run, Hr, Hb. reflexivity.
  - rewrite cleanupExpiredEntries_run, Hr. reflexivity.
Qed.

(** C8. Over a store that answers, a clean-up pass returns normally, drops
    from the stored blacklist exactly the entries with [expires < now] and
    leaves every other entry as it was; a second pass at the same instant
    changes nothing. *)
Theorem cleanupExpiredEntries_spec now st :
  readable (localStorage st) = true ->
  writable (localStorage st) = true ->
  let st' := (cleanupExpiredEntries now st).2 in
  cleanupExpiredEntries now st = (Normal tt, st') /\
  (forall clientId,
     storedBlacklist st' !! clientId = storedBlacklist st !! clientId ≫= keepUnexpired now) /\
  (forall clientId entry,
     storedBlacklist st !! clientId = Some entry ->
     if (expires entry <? now)%Z
     then storedBlacklist st' !! clientId = None
     else storedBlacklist st' !! clientId = Some entry) /\
  (forall clientId,
     storedBlacklist st !! clientId = None -> storedBlacklist st' !! clientId = None) /\
  cleanupExpiredEntries now st' = (Normal tt, st').
Proof.
  intros Hr Hw st'.
  assert (Hlookup : forall clientId,
     storedBlacklist st' !! clientId = storedBlacklist st !! clientId ≫= keepUnexpired now).
  { intros clientId. unfold st'. rewrite cleanupExpiredEntries_run. cbn [snd].
    rewrite Hr, Hw. unfold storedBlacklist at 2.
    destruct (captcha_blacklist (localStorage st)) as [[|m]|] eqn:Hb.
    - unfold storedBlacklist. rewrite Hb, lookup_empty. reflexivity.
    - cbv zeta. rewrite andb_true_r.
      destruct ((foldl (cleanupStep now) (m, false) (Object_keys m)).2) eqn:Hflag.
      + unfold storedBlacklist. cbn. apply cleanup_loop_all.
      + unfold storedBlacklist. rewrite Hb. rewrite <- cleanup_loop_all.
        rewrite (cleanup_loop_unmodified now _ _ _ Hflag). reflexivity.
    - unfold storedBlacklist. rewrite Hb, lookup_empty. reflexivity. }
  split; [unfold st'; rewrite cleanupExpiredEntries_run; reflexivity|].
  split; [exact Hlookup|]. split; [|split].
  - intros clientId entry Hin. rewrite Hlookup, Hin. cbn. unfold keepUnexpired.
    destruct (expires entry <? now)%Z; reflexivity.
  - intros clientId Hnone. rewrite Hlookup, Hnone. reflexivity.
  - apply cleanupExpiredEntries_idempotent.
Qed.

Lemma cleanupExpiredEntries_spec_witness :
  let st' := (cleanupExpiredEntries 2000 mixedState).2 in
  storedBlacklist st' !! "client-a" = None /\
  storedBlacklist st' !! "client-b" = Some {| added := 0; expires := 5000; bl_reasons := [] |} /\
  cleanupExpiredEntries 2000 st' = (Normal tt, st').
Proof.
  destruct (cleanupExpiredEntries_spec 2000 mixedState eq_refl eq_refl)
    as (_ & _ & Hin & _ & Hidem).
  split; [exact (Hin "client-a" sampleEntry eq_refl)|].
  split; [exact (Hin "client-b" _ eq_refl)|].
  exact Hidem.
Defined.

(** *** Recording failures *)

Lemma saveFailedAttempts_run st :
  saveFailedAttempts st =
  (Normal tt,
   if writable (localStorage st)
   then set_localStorage (store_failed_attempts (Json (failedAttempts st))) st
   else st).
Proof.
  unfold saveFailedAttempts. unfold_M.
  destruct (writable (localStorage st)); reflexivity.
Qed.

(** No identifier is the text [__proto__]: base64 text holds no underscore. *)
Lemma b64_char_not_underscore n : JS.b64_char n <> "_"%char.
Proof.
  unfold JS.b64_char.
  destruct (nth_in_or_default (N.to_nat n) JS.b64_alphabet "="%char) as [Hin| ->];
    [|discriminate].
  revert Hin. generalize (nth (N.to_nat n) JS.b64_alphabet "="%char). intros c Hin.
  vm_compute in Hin.
  repeat (destruct Hin as [<-|Hin]; [discriminate|]). destruct Hin.
Qed.

Lemma b64_encode_head bytes :
  JS.b64_encode bytes = "" \/
  exists n rest, JS.b64_encode bytes = String (JS.b64_char n) rest.
Proof.
  destruct bytes as [|a [|b [|c rest]]]; [left; reflexivity|right; eexists _, _; reflexivity..].
Qed.

Lemma clientIdentifier_not_proto h prefs : clientIdentifier h prefs <> "__proto__".
Proof.
  unfold clientIdentifier, JS.substring0, JS.btoa. cbv zeta.
  match goal with
  | |- String.substring 0 32 (JS.b64_encode ?bytes) <> _ =>
      destruct (b64_encode_head bytes) as [->|(n & rest & ->)]
  end.
  - discriminate.
  - cbn [String.substring]. intros [= Hc _]. exact (b64_char_not_underscore n Hc).
Qed.

Lemma assignProperty_insert {A} key (v : A) (o : gmap string A) :
  key <> "__proto__" -> assignProperty key v o = <[key := v]> o.
Proof.
  intros Hne. unfold assignProperty.
  destruct (String.eqb key "__proto__") eqn:Heq; [|reflexivity].
  apply String.eqb_eq in Heq. contradiction.
Qed.

Lemma addToBlacklist_run cfg now clientId reasons st :
  addToBlacklist cfg now clientId reasons st =
  (Normal tt,
   if readable (localStorage st) && writable (localStorage st) then
     match captcha_blacklist (localStorage st) with
     | Some Garbage => st
     | _ =>
         set_blacklistedIPs (fun ips => (ips ++ [clientId])%list)
           (set_localStorage
              (store_blacklist
                 (Json (assignProperty clientId (newEntry cfg now reasons)
                          (storedBlacklist st)))) st)
     end
   else st).
Proof.
  unfold addToBlacklist, parseOrEmpty, storedBlacklist. unfold_M.
  destruct (readable (localStorage st)); [|reflexivity].
  destruct (captcha_blacklist (localStorage st)) as [[|m]|]; cbn;
    destruct (writable (localStorage st)); reflexivity.
Qed.

(** The record a failure leaves behind it: the client's record, or a new
    one, with the count raised and the reason appended. *)
Lemma recorded_attempt now why clientId (attempts : gmap string FailureRecord) :
  alter (pushReason {| reason := why; timestamp := now |}) clientId
    (alter incrementCount clientId
       (if bool_decide (attempts !! clientId = None)
        then <[clientId := newFailureRecord now]> attempts
        else attempts)) =
  <[clientId := pushReason {| reason := why; timestamp := now |}
                  (incrementCount (default (newFailureRecord now) (attempts !! clientId)))]>
    attempts.
Proof.
  apply map_eq. intros k.
  destruct (decide (k = clientId)) as [->|Hne].
  - rewrite lookup_insert_eq, !lookup_alter_eq.
    destruct (attempts !! clientId) as [r|] eqn:Hr.
    + rewrite bool_decide_eq_false_2 by discriminate. rewrite Hr. reflexivity.
    + rewrite bool_decide_eq_true_2 by reflexivity. rewrite lookup_insert_eq. reflexivity.
  - rewrite lookup_insert_ne, !lookup_alter_ne by congruence.
    destruct (bool_decide _); [rewrite lookup_insert_ne by congruence|]; reflexivity.
Qed.

(** [recordFailedAttempt], step by step: the record is updated; at the
    threshold the client goes to [addToBlacklist] and the record is
    deleted; the records are saved. *)
Lemma recordFailedAttempt_run cfg h now why st :
  let clientId := clientIdentifier h (userPreferences st) in
  let record :=
    pushReason {| reason := why; timestamp := now |}
      (incrementCount (default (newFailureRecord now) (failedAttempts st !! clientId))) in
  let st1 := set_failedAttempts (fun attempts => <[clientId := record]> attempts) st in
  let st2 :=
    if (maxFailedAttempts (thresholds cfg) <=? count record)%Z
    then set_failedAttempts (delete clientId)
           (addToBlacklist cfg now clientId (fr_reasons record) st1).2
    else st1 in
  recordFailedAttempt cfg h now why st = (Normal tt, (saveFailedAttempts st2).2).
Proof.
  cbv zeta. unfold recordFailedAttempt, getClientIdentifier.
  unfold try_catch at 1. unfold mbind, M_bind, mret, M_ret, gets, modify.
  set (clientId := clientIdentifier h (userPreferences st)).
  set (record := pushReason _ (incrementCount _)).
  pose proof (recorded_attempt now why clientId (failedAttempts st)) as Hrec.
  fold record in Hrec. clearbody record.
  destruct (bool_decide (failedAttempts st !! clientId = None)); cbn;
    rewrite Hrec, lookup_insert_eq;
    (destruct (maxFailedAttempts (thresholds cfg) <=? count record)%Z;
     [ rewrite !addToBlacklist_run; cbn -[saveFailedAttempts]
     | cbn -[saveFailedAttempts] ]);
    unfold set_failedAttempts; cbn -[saveFailedAttempts]; rewrite ?Hrec;
    rewrite !saveFailedAttempts_run; reflexivity.
Qed.

(** A failure below the threshold only touches the client's record and the
    saved copy of the records. *)
Lemma recordFailedAttempt_below cfg h now why st :
  let clientId := clientIdentifier h (userPreferences st) in
  let record :=
    pushReason {| reason := why; timestamp := now |}
      (incrementCount (default (newFailureRecord now) (failedAttempts st !! clientId))) in
  let st' := (recordFailedAttempt cfg h now why st).2 in
  (count record < maxFailedAttempts (thresholds cfg))%Z ->
  failedAttempts st' = <[clientId := record]> (failedAttempts st) /\
  captcha_blacklist (localStorage st') = captcha_blacklist (localStorage st) /\
  blacklistedIPs st' = blacklistedIPs st.
Proof.
  cbv zeta. intros Hlt. rewrite recordFailedAttempt_run. cbv zeta.
  rewrite (proj2 (Z.leb_gt _ _) Hlt). rewrite saveFailedAttempts_run. cbn.
  destruct (writable (localStorage st)); cbn; repeat split; reflexivity.
Qed.

(** A failure that reaches the threshold over a store that works promotes
    the client and discards the record. *)
Lemma recordFailedAttempt_promotes cfg h now why st :
  let clientId := clientIdentifier h (userPreferences st) in
  let record :=
    pushReason {| reason := why; timestamp := now |}
      (incrementCount (default (newFailureRecord now) (failedAttempts st !! clientId))) in
  let st' := (recordFailedAttempt cfg h now why st).2 in
  storageWorks st ->
  (maxFailedAttempts (thresholds cfg) <= count record)%Z ->
  failedAttempts st' = delete clientId (failedAttempts st) /\
  storedBlacklist st' =
    <[clientId := newEntry cfg now (fr_reasons record)]> (storedBlacklist st) /\
  blacklistedIPs st' = (blacklistedIPs st ++ [clientId])%list.
Proof.
  cbv zeta. intros (Hr & Hw & Hg) Hle. rewrite recordFailedAttempt_run. cbv zeta.
  rewrite (proj2 (Z.leb_le _ _) Hle).
  rewrite addToBlacklist_run, saveFailedAttempts_run. cbn.
  rewrite Hr, Hw. cbn.
  rewrite (assignProperty_insert _ _ _ (clientIdentifier_not_proto h (userPreferences st))).
  destruct (captcha_blacklist (localStorage st)) as [[|m]|] eqn:Hb;
    [congruence | |]; cbn; rewrite Hw; cbn; unfold storedBlacklist; cbn; rewrite ?Hb;
    (split; [apply delete_insert_eq | split; reflexivity]).
Qed.

(** No failure changes what the store answers, the preferences or the
    visitor's address. *)
Lemma recordFailedAttempt_frame cfg h now why st :
  let st' := (recordFailedAttempt cfg h now why st).2 in
  readable (localStorage st') = readable (localStorage st) /\
  writable (localStorage st') = writable (localStorage st) /\
  userPreferences st' = userPreferences st /\
  visitorIP st' = visitorIP st.
Proof.
  cbv zeta. rewrite recordFailedAttempt_run. cbv zeta.
  rewrite saveFailedAttempts_run.
  destruct (_ <=? _)%Z; [rewrite addToBlacklist_run|]; cbn;
    destruct (readable (localStorage st)) eqn:Hr, (writable (localStorage st)) eqn:Hw; cbn;
    try (destruct (captcha_blacklist (localStorage st)) as [[|m]|]; cbn);
    rewrite ?Hr, ?Hw; cbn; rewrite ?Hr, ?Hw; repeat split; reflexivity.
Qed.

Lemma recordFailures_app cfg h calls1 calls2 st :
  recordFailures cfg h (calls1 ++ calls2) st =
  recordFailures cfg h calls2 (recordFailures cfg h calls1 st).
Proof.
  revert st. induction calls1 as [|[now why] calls1 IH]; intros st; cbn.
  - reflexivity.
  - apply IH.
Qed.

(** One more failure on top of a pending series. *)
Lemma pendingRecord_snoc calls now why :
  pendingRecord (calls ++ [(now, why)]) =
  Some (pushReason {| reason := why; timestamp := now |}
          (incrementCount (default (newFailureRecord now) (pendingRecord calls)))).
Proof.
  destruct calls as [|[first why0] calls]; [reflexivity|].
  cbn -[Z.of_nat]. unfold pushReason, incrementCount. cbn -[Z.of_nat]. f_equal. f_equal.
  - rewrite length_app. cbn [length]. lia.
  - unfold reasonsOf. rewrite map_app. reflexivity.
Qed.

Lemma pendingRecord_count calls record :
  pendingRecord calls = Some record -> count record = Z.of_nat (length calls).
Proof.
  destruct calls as [|[first why] calls]; [discriminate|].
  intros [= <-]. reflexivity.
Qed.

Lemma pendingRecord_reasons calls record :
  pendingRecord calls = Some record -> fr_reasons record = reasonsOf calls.
Proof.
  destruct calls as [|[first why] calls]; [discriminate|].
  intros [= <-]. reflexivity.
Qed.

(** A series of failures that stays below the threshold, started without a
    record: the record counts them, nothing else moves. *)
Lemma recordFailures_pending cfg h calls st :
  let clientId := clientIdentifier h (userPreferences st) in
  let st' := recordFailures cfg h calls st in
  failedAttempts st !! clientId = None ->
  (Z.of_nat (length calls) < maxFailedAttempts (thresholds cfg))%Z ->
  failedAttempts st' !! clientId = pendingRecord calls /\
  captcha_blacklist (localStorage st') = captcha_blacklist (localStorage st) /\
  blacklistedIPs st' = blacklistedIPs st /\
  readable (localStorage st') = readable (localStorage st) /\
  writable (localStorage st') = writable (localStorage st) /\
  userPreferences st' = userPreferences st.
Proof.
  cbv zeta. intros Hnone.
  induction calls as [|[now why] calls IH] using rev_ind; intros Hlen.
  - cbn. repeat split; try reflexivity. exact Hnone.
  - rewrite recordFailures_app. cbn [recordFailures].
    rewrite length_app in Hlen. cbn [length] in Hlen.
    destruct IH as (Hrec & Hbl & Hips & Hr & Hw & Hprefs); [lia|].
    set (st1 := recordFailures cfg h calls st) in *.
    destruct (recordFailedAttempt_frame cfg h now why st1) as (Hr' & Hw' & Hp' & _).
    pose proof (recordFailedAttempt_below cfg h now why st1) as Hbelow.
    cbv zeta in Hbelow. rewrite Hprefs, Hrec in Hbelow.
    pose proof (pendingRecord_snoc calls now why) as Hsnoc.
    pose proof (pendingRecord_count _ _ Hsnoc) as Hcount.
    rewrite length_app in Hcount. cbn [length] in Hcount.
    destruct Hbelow as (Hfa & Hbl' & Hips'); [lia|].
    rewrite Hfa, lookup_insert_eq, Hsnoc.
    repeat split; congruence.
Qed.

(** The client's record after one failure, whatever the store does. *)
Lemma recordFailedAttempt_failedAttempts cfg h now why st :
  let clientId := clientIdentifier h (userPreferences st) in
  let record :=
    pushReason {| reason := why; timestamp := now |}
      (incrementCount (default (newFailureRecord now) (failedAttempts st !! clientId))) in
  failedAttempts (recordFailedAttempt cfg h now why st).2 =
  if (maxFailedAttempts (thresholds cfg) <=? count record)%Z
  then delete clientId (failedAttempts st)
  else <[clientId := record]> (failedAttempts st).
Proof.
  cbv zeta. rewrite recordFailedAttempt_run. cbv zeta.
  rewrite saveFailedAttempts_run.
  destruct (_ <=? _)%Z; [rewrite addToBlacklist_run|]; cbn;
    destruct (readable (localStorage st)) eqn:Hr, (writable (localStorage st)) eqn:Hw; cbn;
    try (destruct (captcha_blacklist (localStorage st)) as [[|m]|]; cbn);
    rewrite ?Hr, ?Hw; cbn; rewrite ?Hr, ?Hw; cbn;
    first [ apply delete_insert_eq | reflexivity ].
Qed.

(** A failure over a store that does not work leaves the stored blacklist
    and the runtime list as they are. *)
Lemma recordFailedAttempt_store_fails cfg h now why st :
  ~ storageWorks st ->
  captcha_blacklist (localStorage (recordFailedAttempt cfg h now why st).2) =
    captcha_blacklist (localStorage st) /\
  blacklistedIPs (recordFailedAttempt cfg h now why st).2 = blacklistedIPs st.
Proof.
  intros Hfails. rewrite recordFailedAttempt_run. cbn [snd]. cbv zeta.
  rewrite saveFailedAttempts_run. cbn [snd].
  match goal with
  | |- context [if writable (localStorage ?s) then _ else _] =>
      assert (Hs : captcha_blacklist (localStorage s) = captcha_blacklist (localStorage st) /\
                   blacklistedIPs s = blacklistedIPs st);
        [|destruct (writable (localStorage s)); exact Hs]
  end.
  destruct (_ <=? _)%Z; [|split; reflexivity].
  rewrite addToBlacklist_run. cbn [snd].
  cbn [readable writable captcha_blacklist localStorage set_failedAttempts].
  destruct (readable (localStorage st)) eqn:Hr, (writable (localStorage st)) eqn:Hw;
    cbn [andb]; try (split; reflexivity).
  destruct (captcha_blacklist (localStorage st)) as [[|m]|] eqn:Hb;
    first [split; [exact Hb | reflexivity]
          | exfalso; apply Hfails; unfold storageWorks; rewrite Hr, Hw, Hb;
            repeat split; first [reflexivity | discriminate]].
Qed.

(** C1. For a client without a failure record and a positive threshold.
    Over a store that works, [maxFailedAttempts] calls of
    [recordFailedAttempt] leave a blacklist entry for the client (added at
    the last call, expiring [blacklistDuration] seconds later, with the
    reasons of the calls) and no failure record; [maxFailedAttempts - 1]
    calls leave the stored blacklist untouched and the record pending.
    Over a store that does not work (it throws, or its blacklist text does
    not parse) [maxFailedAttempts] calls leave no failure record either,
    but the stored blacklist is what it was and so is the answer of
    [isClientBlacklisted]. *)
Theorem recordFailedAttempt_threshold cfg h st calls :
  let clientId := clientIdentifier h (userPreferences st) in
  let st' := recordFailures cfg h calls st in
  failedAttempts st !! clientId = None ->
  (0 < maxFailedAttempts (thresholds cfg))%Z ->
  (storageWorks st ->
   (Z.of_nat (length calls) = maxFailedAttempts (thresholds cfg) ->
      (exists now why,
         last calls = Some (now, why) /\
         storedBlacklist st' !! clientId = Some (newEntry cfg now (reasonsOf calls))) /\
      failedAttempts st' !! clientId = None) /\
   (Z.of_nat (length calls) = (maxFailedAttempts (thresholds cfg) - 1)%Z ->
      captcha_blacklist (localStorage st') = captcha_blacklist (localStorage st) /\
      storedBlacklist st' = storedBlacklist st /\
      failedAttempts st' !! clientId = pendingRecord calls)) /\
  (~ storageWorks st ->
   Z.of_nat (length calls) = maxFailedAttempts (thresholds cfg) ->
   failedAttempts st' !! clientId = None /\
   storedBlacklist st' = storedBlacklist st /\
   forall now,
     returned (isClientBlacklisted now clientId st') =
     returned (isClientBlacklisted now clientId st)).
Proof.
  cbv zeta. intros Hnone Hmax. split; [intros Hworks; split|].
  - intros Hlen.
    destruct calls as [|c calls] using rev_ind; [cbn in Hlen; lia|].
    clear IHcalls. destruct c as [now why].
    rewrite length_app in Hlen. cbn [length] in Hlen.
    rewrite recordFailures_app. cbn [recordFailures].
    destruct (recordFailures_pending cfg h calls st Hnone)
      as (Hrec & Hbl & Hips & Hr & Hw & Hprefs); [lia|].
    set (st1 := recordFailures cfg h calls st) in *.
    assert (Hworks1 : storageWorks st1).
    { destruct Hworks as (? & ? & ?). unfold storageWorks. rewrite Hr, Hw, Hbl. auto. }
    pose proof (recordFailedAttempt_promotes cfg h now why st1) as Hprom.
    cbv zeta in Hprom. rewrite Hprefs, Hrec in Hprom.
    pose proof (pendingRecord_snoc calls now why) as Hsnoc.
    pose proof (pendingRecord_count _ _ Hsnoc) as Hcount.
    pose proof (pendingRecord_reasons _ _ Hsnoc) as Hreasons.
    rewrite length_app in Hcount. cbn [length] in Hcount.
    destruct Hprom as (Hfa & Hstored & _); [exact Hworks1 | lia |].
    split.
    + exists now, why. split; [apply last_snoc|].
      rewrite Hstored, lookup_insert_eq, Hreasons. reflexivity.
    + rewrite Hfa. apply lookup_delete_eq.
  - intros Hlen.
    destruct (recordFailures_pending cfg h calls st Hnone)
      as (Hrec & Hbl & _); [lia|].
    split; [exact Hbl|]. split; [|exact Hrec].
    unfold storedBlacklist. rewrite Hbl. reflexivity.
  - intros Hfails Hlen.
    destruct calls as [|c calls] using rev_ind; [cbn in Hlen; lia|].
    clear IHcalls. destruct c as [now why].
    rewrite length_app in Hlen. cbn [length] in Hlen.
    rewrite recordFailures_app. cbn [recordFailures].
    destruct (recordFailures_pending cfg h calls st Hnone)
      as (Hrec & Hbl & Hips & Hr & Hw & Hprefs); [lia|].
    set (st1 := recordFailures cfg h calls st) in *.
    assert (Hfails1 : ~ storageWorks st1).
    { unfold storageWorks. rewrite Hr, Hw, Hbl. exact Hfails. }
    destruct (recordFailedAttempt_store_fails cfg h now why st1 Hfails1) as [Hbl' _].
    destruct (recordFailedAttempt_frame cfg h now why st1) as (Hr' & _).
    cbv zeta in Hr'.
    pose proof (recordFailedAttempt_failedAttempts cfg h now why st1) as Hfa.
    cbv zeta in Hfa. rewrite Hprefs, Hrec in Hfa.
    pose proof (pendingRecord_snoc calls now why) as Hsnoc.
    pose proof (pendingRecord_count _ _ Hsnoc) as Hcount.
    rewrite length_app in Hcount. cbn [length] in Hcount.
    rewrite (proj2 (Z.leb_le _ _)) in Hfa by lia.
    assert (Hstored : storedBlacklist (recordFailedAttempt cfg h now why st1).2 =
                      storedBlacklist st).
    { unfold storedBlacklist. rewrite Hbl', Hbl. reflexivity. }
    split; [rewrite Hfa; apply lookup_delete_eq|]. split; [exact Hstored|].
    intros now'. rewrite !isClientBlacklisted_run. unfold returned. cbn [fst].
    rewrite Hstored, Hr', Hr. reflexivity.
Qed.

Lemma recordFailedAttempt_threshold_witness :
  let clientId := clientIdentifier desktopHost defaultPreferences in
  (storedBlacklist (recordFailures defaultConfig desktopHost threeFailures (freshState true))
     !! clientId =
   Some {| added := 30; expires := 86400030;
           bl_reasons := reasonsOf threeFailures |} /\
   failedAttempts (recordFailures defaultConfig desktopHost threeFailures (freshState true))
     !! clientId = None) /\
  storedBlacklist
    (recordFailures defaultConfig desktopHost (take 2 threeFailures) (freshState true)) = ∅ /\
  storedBlacklist
    (recordFailures defaultConfig desktopHost threeFailures (freshState false)) = ∅.
Proof.
  cbv zeta. split; [|split].
  - destruct (recordFailedAttempt_threshold defaultConfig desktopHost (freshState true)
                threeFailures) as [Hworks _]; [reflexivity..|].
    destruct Hworks as [Hfull _]; [repeat split; discriminate|].
    destruct (Hfull eq_refl) as ((now & why & Hlast & Hentry) & Hgone).
    injection Hlast as <- <-. split; [exact Hentry | exact Hgone].
  - destruct (recordFailedAttempt_threshold defaultConfig desktopHost (freshState true)
                (take 2 threeFailures)) as [Hworks _]; [reflexivity..|].
    destruct Hworks as [_ Hbelow]; [repeat split; discriminate|].
    destruct (Hbelow eq_refl) as (_ & Hsame & _). exact Hsame.
  - destruct (recordFailedAttempt_threshold defaultConfig desktopHost (freshState false)
                threeFailures) as [_ Hfails]; [reflexivity..|].
    destruct Hfails as (_ & Hsame & _); [|reflexivity|exact Hsame].
    intros (Hr & _). discriminate Hr.
Defined.

(** C1, refuted as stated: the promotion needs a store that works.  Over a
    store whose blacklist text does not parse, and over one that throws,
    the third failure of a client reaches the threshold and discards its
    record, but leaves no blacklist entry: the client is reported as not
    blacklisted. *)
Lemma recordFailedAttempt_threshold_without_store :
  let clientId := clientIdentifier desktopHost defaultPreferences in
  let corrupt := set_localStorage (store_blacklist Garbage) (freshState true) in
  let after := recordFailures defaultConfig desktopHost threeFailures corrupt in
  let afterDown := recordFailures defaultConfig desktopHost threeFailures (freshState false) in
  Z.of_nat (length threeFailures) = maxFailedAttempts (thresholds defaultConfig) /\
  failedAttempts corrupt !! clientId = None /\
  failedAttempts after !! clientId = None /\
  storedBlacklist after !! clientId = None /\
  captcha_blacklist (localStorage after) = Some Garbage /\
  returned (isClientBlacklisted 31 clientId after) = Some false /\
  failedAttempts afterDown !! clientId = None /\
  storedBlacklist afterDown !! clientId = None /\
  returned (isClientBlacklisted 31 clientId afterDown) = Some false.
Proof. cbv zeta. evaluate_each. Qed.

(** Every call of [recordFailedAttempt] records the failure: the count
    rises by one, or reaches the threshold and the record is discarded. *)
Lemma recordFailedAttempt_records cfg h now why st :
  failureRecorded cfg (clientIdentifier h (userPreferences st)) st
    (recordFailedAttempt cfg h now why st).2.
Proof.
  unfold failureRecorded, failureCount. cbv zeta.
  rewrite recordFailedAttempt_failedAttempts. cbv zeta.
  set (clientId := clientIdentifier h (userPreferences st)).
  assert (Hcount :
    count (pushReason {| reason := why; timestamp := now |}
             (incrementCount (default (newFailureRecord now) (failedAttempts st !! clientId)))) =
    (match failedAttempts st !! clientId with Some r => count r | None => 0 end + 1)%Z)
    by (destruct (failedAttempts st !! clientId); reflexivity).
  rewrite Hcount.
  destruct (_ <=? _)%Z.
  - apply lookup_delete_eq.
  - rewrite lookup_insert_eq. exact Hcount.
Qed.

(** With the store down, a failure changes neither the store nor the
    runtime list, and the store stays down. *)
Lemma recordFailedAttempt_storage_down cfg h now why st :
  storageDown st ->
  let st' := (recordFailedAttempt cfg h now why st).2 in
  recordFailedAttempt cfg h now why st = (Normal tt, st') /\
  storageDown st' /\
  localStorage st' = localStorage st /\
  blacklistedIPs st' = blacklistedIPs st.
Proof.
  intros [Hr Hw]. cbv zeta. rewrite recordFailedAttempt_run. cbv zeta.
  rewrite saveFailedAttempts_run. unfold storageDown.
  destruct (_ <=? _)%Z; [rewrite addToBlacklist_run|]; cbn;
    rewrite ?Hr, ?Hw; cbn; rewrite ?Hr, ?Hw; cbn; rewrite ?Hr, ?Hw; repeat split; reflexivity.
Qed.

Lemma recordFailures_storage_down cfg h calls st :
  storageDown st ->
  storageDown (recordFailures cfg h calls st) /\
  localStorage (recordFailures cfg h calls st) = localStorage st /\
  blacklistedIPs (recordFailures cfg h calls st) = blacklistedIPs st.
Proof.
  revert st. induction calls as [|[now why] calls IH]; intros st Hdown; cbn.
  - repeat split; [apply Hdown | apply Hdown].
  - destruct (recordFailedAttempt_storage_down cfg h now why st Hdown) as (_ & Hd & Hls & Hips).
    destruct (IH _ Hd) as (Hd' & Hls' & Hips').
    repeat split; [apply Hd' | apply Hd' | congruence | congruence].
Qed.

(** C9 (as the code has it). While every access to the store throws, no
    ledger operation throws, whatever failures the session has recorded;
    [isClientBlacklisted] then answers [false] for every client, also for
    one whose failures reached the threshold: the promotion is lost with
    the store, and no list kept in memory is consulted. *)
Theorem ledger_storage_down cfg h calls now why clientId st :
  storageDown st ->
  let st' := recordFailures cfg h calls st in
  storageDown st' /\
  (exists st'', recordFailedAttempt cfg h now why st' = (Normal tt, st'')) /\
  isClientBlacklisted now clientId st' = (Normal false, st') /\
  cleanupExpiredEntries now st' = (Normal tt, st').
Proof.
  intros Hdown st'.
  destruct (recordFailures_storage_down cfg h calls st Hdown) as (Hd & _ & _).
  fold st' in Hd. split; [exact Hd|]. split; [|split].
  - eexists. apply (recordFailedAttempt_storage_down cfg h now why st' Hd).
  - destruct Hd as [Hr _]. unfold isClientBlacklisted. unfold_M. rewrite Hr. reflexivity.
  - rewrite cleanupExpiredEntries_run. destruct Hd as [Hr _]. rewrite Hr. reflexivity.
Qed.

Lemma ledger_storage_down_witness :
  let st' := recordFailures defaultConfig desktopHost threeFailures (freshState false) in
  isClientBlacklisted 31 (clientIdentifier desktopHost defaultPreferences) st' =
    (Normal false, st') /\
  cleanupExpiredEntries 31 st' = (Normal tt, st').
Proof.
  destruct (ledger_storage_down defaultConfig desktopHost threeFailures 31 "x"
              (clientIdentifier desktopHost defaultPreferences) (freshState false))
    as (_ & _ & Hlisted & Hclean).
  - split; reflexivity.
  - split; [exact Hlisted | exact Hclean].
Defined.

(** C9, refuted as stated: with the store down, the third failure of a
    client reaches the threshold (its record, at count 2 before, is
    discarded), and the client is then reported as not blacklisted; the
    runtime list is empty as well.  Over a working store the same three
    failures get the client reported. *)
Lemma storage_down_promotion_lost :
  let clientId := clientIdentifier desktopHost defaultPreferences in
  let before := recordFailures defaultConfig desktopHost (take 2 threeFailures) (freshState false) in
  let after := recordFailures defaultConfig desktopHost threeFailures (freshState false) in
  storageDown (freshState false) /\
  failureCount before clientId = 2%Z /\
  failedAttempts after !! clientId = None /\
  blacklistedIPs after = [] /\
  isClientBlacklisted 31 clientId after = (Normal false, after) /\
  returned (isClientBlacklisted 31 clientId
              (recordFailures defaultConfig desktopHost threeFailures (freshState true))) =
    Some true.
Proof. cbv zeta. evaluate_each. Qed.

(** ** The decision facade *)

(** [recordFailedAttempt] never throws. *)
Lemma recordFailedAttempt_returns cfg h now why st :
  recordFailedAttempt cfg h now why st =
  (Normal tt, (recordFailedAttempt cfg h now why st).2).
Proof. rewrite recordFailedAttempt_run. reflexivity. Qed.

(** [checkBlacklist], branch by branch. *)
Lemma checkBlacklist_run cfg h now st :
  checkBlacklist cfg h now st =
  if visitorBlocked cfg (visitorIP st) then
    (Normal (denied "blocked_ip"),
     (recordFailedAttempt cfg h now ("blocked_ip_" ++ default "" (visitorIP st)) st).2)
  else if (2 <=? botScore cfg (JS.toLowerCase (userAgent h)))%nat then
    (Normal (denied "known_bot"),
     (recordFailedAttempt cfg h now "known_bot_useragent" st).2)
  else if existsb (JS.includes (JS.toLowerCase (userAgent h))) (securityTools cfg) then
    (Normal (denied "security_tool"),
     (recordFailedAttempt cfg h now "security_tool_detected" st).2)
  else
    (Normal (if returned (isClientBlacklisted now (clientIdentifier h (userPreferences st)) st)
             is Some true then denied "blacklisted" else admitted),
     st).
Proof.
  unfold checkBlacklist, getClientIdentifier.
  unfold try_catch at 1. unfold mbind, M_bind, mret, M_ret, gets.
  cbv beta iota zeta.
  destruct (visitorBlocked cfg (visitorIP st)).
  { pose proof (recordFailedAttempt_returns cfg h now
                  ("blocked_ip_" ++ default "" (visitorIP st)) st) as E.
    destruct (recordFailedAttempt _ _ _ _ st) as [c s']. cbn [snd] in *.
    injection E as ->. reflexivity. }
  destruct (2 <=? botScore cfg (JS.toLowerCase (userAgent h)))%nat.
  { pose proof (recordFailedAttempt_returns cfg h now "known_bot_useragent" st) as E.
    destruct (recordFailedAttempt _ _ _ _ st) as [c s']. cbn [snd] in *.
    injection E as ->. reflexivity. }
  destruct (existsb _ (securityTools cfg)).
  { pose proof (recordFailedAttempt_returns cfg h now "security_tool_detected" st) as E.
    destruct (recordFailedAttempt _ _ _ _ st) as [c s']. cbn [snd] in *.
    injection E as ->. reflexivity. }
  rewrite isClientBlacklisted_run. unfold returned. cbn [fst].
  destruct (_ && _); reflexivity.
Qed.



(** * Further properties of the code *)

(** ** Address texts and ranges *)

Lemma octetTextOk_all n : (n < 256)%N -> octetTextOk n = true.
Proof.
  intros Hn.
  assert (Hall : forallb octetTextOk (map N.of_nat (seq 0 256)) = true)
    by (vm_compute; reflexivity).
  rewrite forallb_forall in Hall. apply Hall.
  apply in_map_iff. exists (N.to_nat n). split; [lia|].
  apply in_seq. lia.
Qed.

Lemma octet_parse n : (n < 256)%N -> JS.parseInt10 (JS.string_of_N n) = JS.Int (Z.of_N n).
Proof.
  intros Hn. pose proof (octetTextOk_all n Hn) as H. unfold octetTextOk in H.
  destruct (JS.parseInt10 (JS.string_of_N n)); [discriminate|].
  apply andb_prop in H as [H _]. apply andb_prop in H as [H _].
  apply Z.eqb_eq in H. congruence.
Qed.

Lemma octet_no_dot n : (n < 256)%N -> hasChar "." (JS.string_of_N n) = false.
Proof.
  intros Hn. pose proof (octetTextOk_all n Hn) as H. unfold octetTextOk in H.
  apply andb_prop in H as [H _]. apply andb_prop in H as [_ H].
  apply negb_true_iff in H. exact H.
Qed.

Lemma octet_no_slash n : (n < 256)%N -> hasChar "/" (JS.string_of_N n) = false.
Proof.
  intros Hn. pose proof (octetTextOk_all n Hn) as H. unfold octetTextOk in H.
  apply andb_prop in H as [_ H]. apply negb_true_iff in H. exact H.
Qed.

Lemma hasChar_app c s t : hasChar c (s ++ t) = hasChar c s || hasChar c t.
Proof.
  induction s as [|c' s IH]; simpl; [reflexivity|]. rewrite IH. apply orb_assoc.
Qed.

(** Splitting at a separator that the first field does not hold. *)
Lemma split_app sep s rest :
  hasChar sep s = false ->
  JS.split sep (s ++ String sep rest) = s :: JS.split sep rest.
Proof.
  induction s as [|c s IH]; simpl.
  - intros _. rewrite Ascii.eqb_refl. reflexivity.
  - intros H. apply orb_false_elim in H as [Hc Hs].
    rewrite Hc, (IH Hs). reflexivity.
Qed.

Lemma split_app_sep sep s rest :
  hasChar sep s = false ->
  JS.split sep (s ++ String sep EmptyString ++ rest) = s :: JS.split sep rest.
Proof. intros H. exact (split_app sep s rest H). Qed.

Lemma split_single sep s : hasChar sep s = false -> JS.split sep s = [s].
Proof.
  induction s as [|c s IH]; simpl; [reflexivity|].
  intros H. apply orb_false_elim in H as [Hc Hs]. rewrite Hc, (IH Hs). reflexivity.
Qed.

Lemma dottedQuad_fields a b c d :
  (a < 256)%N -> (b < 256)%N -> (c < 256)%N -> (d < 256)%N ->
  map JS.parseInt10 (JS.split "." (dottedQuad a b c d)) =
  [JS.Int (Z.of_N a); JS.Int (Z.of_N b); JS.Int (Z.of_N c); JS.Int (Z.of_N d)].
Proof.
  intros Ha Hb Hc Hd. unfold dottedQuad.
  rewrite (split_app_sep "." (JS.string_of_N a)) by (apply octet_no_dot; assumption).
  rewrite (split_app_sep "." (JS.string_of_N b)) by (apply octet_no_dot; assumption).
  rewrite (split_app_sep "." (JS.string_of_N c)) by (apply octet_no_dot; assumption).
  rewrite split_single by (apply octet_no_dot; assumption).
  cbn [map]. rewrite !octet_parse by assumption. reflexivity.
Qed.

Section AddressValue.

Local Open Scope Z_scope.

Lemma ToInt32_small z : - JS.two31 <= z < JS.two31 -> JS.ToInt32 (JS.Int z) = z.
Proof.
  unfold JS.ToInt32, JS.two31, JS.two32. intros Hz.
  rewrite Z.mod_small by lia. lia.
Qed.

Lemma ipToInt_fields ip p0 p1 p2 p3 rest :
  map JS.parseInt10 (JS.split "." ip) = JS.Int p0 :: JS.Int p1 :: JS.Int p2 :: JS.Int p3 :: rest ->
  ipToInt ip =
  JS.Int (JS.ToInt32 (JS.Int (Z.shiftl (JS.ToInt32 (JS.Int p0)) 24)) +
          JS.ToInt32 (JS.Int (Z.shiftl (JS.ToInt32 (JS.Int p1)) 16)) +
          JS.ToInt32 (JS.Int (Z.shiftl (JS.ToInt32 (JS.Int p2)) 8)) + p3).
Proof. intros H. unfold ipToInt. rewrite H. reflexivity. Qed.

(** The shifts and the sum of [ipToInt] on four octets. *)
Lemma ipToInt_quad a b c d :
  (a < 256)%N -> (b < 256)%N -> (c < 256)%N -> (d < 256)%N ->
  ipToInt (dottedQuad a b c d) =
    JS.Int (if (a <? 128)%N then quadValue a b c d else quadValue a b c d - 2 ^ 32) /\
  JS.ToUint32 (ipToInt (dottedQuad a b c d)) = quadValue a b c d.
Proof.
  intros Ha Hb Hc Hd.
  rewrite (ipToInt_fields _ _ _ _ _ _ (dottedQuad_fields a b c d Ha Hb Hc Hd)).
  rewrite (ToInt32_small (Z.of_N a)), (ToInt32_small (Z.of_N b)),
    (ToInt32_small (Z.of_N c)) by (unfold JS.two31; lia).
  rewrite !Z.shiftl_mul_pow2 by lia.
  rewrite (ToInt32_small (Z.of_N b * 2 ^ 16)) by (unfold JS.two31; lia).
  rewrite (ToInt32_small (Z.of_N c * 2 ^ 8)) by (unfold JS.two31; lia).
  unfold quadValue.
  assert (Hhigh : JS.ToInt32 (JS.Int (Z.of_N a * 2 ^ 24)) =
                  if (a <? 128)%N then Z.of_N a * 2 ^ 24 else Z.of_N a * 2 ^ 24 - 2 ^ 32).
  { destruct (N.ltb_spec a 128).
    - apply ToInt32_small. unfold JS.two31. lia.
    - unfold JS.ToInt32, JS.two31, JS.two32.
      replace (Z.of_N a * 2 ^ 24 + 2147483648)
        with ((Z.of_N a * 2 ^ 24 - 2147483648) + 1 * 4294967296) by lia.
      rewrite Z_mod_plus_full, Z.mod_small by lia. lia. }
  rewrite Hhigh. split.
  - destruct (a <? 128)%N; f_equal; lia.
  - unfold JS.ToUint32, JS.two32.
    destruct (a <? 128)%N.
    + apply Z.mod_small. lia.
    + replace (Z.of_N a * 2 ^ 24 - 2 ^ 32 + Z.of_N b * 2 ^ 16 + Z.of_N c * 2 ^ 8 + Z.of_N d)
        with ((Z.of_N a * 2 ^ 24 + Z.of_N b * 2 ^ 16 + Z.of_N c * 2 ^ 8 + Z.of_N d)
              + (-1) * 4294967296) by lia.
      rewrite Z_mod_plus_full. apply Z.mod_small. lia.
Qed.

(** X1. The dotted text of four octets converts to their 32-bit value,
    read as a signed 32-bit integer: the value itself below 128.0.0.0, the
    value less 2^32 from there on. *)
Theorem ipToInt_dottedQuad a b c d :
  (a < 256)%N -> (b < 256)%N -> (c < 256)%N -> (d < 256)%N ->
  ipToInt (dottedQuad a b c d) =
    JS.Int (if (a <? 128)%N then quadValue a b c d else quadValue a b c d - 2 ^ 32) /\
  JS.ToUint32 (ipToInt (dottedQuad a b c d)) = quadValue a b c d.
Proof. exact (ipToInt_quad a b c d). Qed.

Lemma ipToInt_dottedQuad_witness :
  ipToInt (dottedQuad 154 28 229 77) = JS.Int (-1709382323) /\
  JS.ToUint32 (ipToInt (dottedQuad 154 28 229 77)) = 2585584973.
Proof.
  exact (ipToInt_dottedQuad 154 28 229 77 eq_refl eq_refl eq_refl eq_refl).
Defined.

End AddressValue.

Section Ranges.

Local Open Scope Z_scope.

Lemma quadValue_range a b c d :
  (a < 256)%N -> (b < 256)%N -> (c < 256)%N -> (d < 256)%N ->
  0 <= quadValue a b c d < 2 ^ 32.
Proof. unfold quadValue. lia. Qed.

Lemma dottedQuad_no_slash a b c d :
  (a < 256)%N -> (b < 256)%N -> (c < 256)%N -> (d < 256)%N ->
  hasChar "/" (dottedQuad a b c d) = false.
Proof.
  intros Ha Hb Hc Hd. unfold dottedQuad.
  rewrite !hasChar_app, !octet_no_slash by assumption. reflexivity.
Qed.

Lemma splitCidr_cidrText a b c d p :
  (a < 256)%N -> (b < 256)%N -> (c < 256)%N -> (d < 256)%N -> (p < 256)%N ->
  splitCidr (cidrText a b c d p) = (dottedQuad a b c d, JS.Int (Z.of_N p)).
Proof.
  intros Ha Hb Hc Hd Hp. unfold splitCidr, cidrText.
  rewrite (split_app_sep "/" (dottedQuad a b c d)) by (apply dottedQuad_no_slash; assumption).
  rewrite split_single by (apply octet_no_slash; assumption).
  cbn [nth lookup list_lookup]. rewrite octet_parse by assumption. reflexivity.
Qed.


(** Agreement on the bits from [k] up to 31, for 32-bit values, is
    equality of the quotients by [2^k]. *)
Lemma top_bits_quotient v w k :
  0 <= v < 2 ^ 32 -> 0 <= w < 2 ^ 32 -> 0 <= k ->
  (forall i, k <= i < 32 -> Z.testbit v i = Z.testbit w i) <-> v / 2 ^ k = w / 2 ^ k.
Proof.
  intros Hv Hw Hk. split.
  - intros H. apply Z.bits_inj'. intros j Hj.
    rewrite !Z.div_pow2_bits by lia.
    destruct (Z_lt_le_dec (j + k) 32) as [Hlow|Hhigh].
    + apply H. lia.
    + rewrite <- (Z.mod_small v (2 ^ 32)), <- (Z.mod_small w (2 ^ 32)) by lia.
      rewrite !Z.mod_pow2_bits_high by lia. reflexivity.
  - intros H i Hi.
    replace i with ((i - k) + k) by lia.
    rewrite <- !Z.div_pow2_bits by lia. rewrite H. reflexivity.
Qed.

Lemma testbit_mod32 z i : 0 <= i < 32 -> Z.testbit (z mod 2 ^ 32) i = Z.testbit z i.
Proof. intros Hi. apply Z.mod_pow2_bits_low. lia. Qed.

(** X2. For well-formed texts and a prefix length from 1 to 32,
    [isIPInRange] holds exactly when the address and the base of the range
    have the same quotient by [2^(32 - prefix)]; a /24 range holds exactly
    the addresses with its first three octets. *)
Theorem isIPInRange_cidr a b c d a' b' c' d' p :
  (a < 256)%N -> (b < 256)%N -> (c < 256)%N -> (d < 256)%N ->
  (a' < 256)%N -> (b' < 256)%N -> (c' < 256)%N -> (d' < 256)%N ->
  (1 <= p <= 32)%N ->
  (isIPInRange (dottedQuad a b c d) (cidrText a' b' c' d' p) = true <->
     quadValue a b c d / 2 ^ (32 - Z.of_N p) = quadValue a' b' c' d' / 2 ^ (32 - Z.of_N p)) /\
  (p = 24%N ->
     isIPInRange (dottedQuad a b c d) (cidrText a' b' c' d' p) = true <->
     a = a' /\ b = b' /\ c = c').
Proof.
  intros Ha Hb Hc Hd Ha' Hb' Hc' Hd' Hp.
  assert (Hmain :
    isIPInRange (dottedQuad a b c d) (cidrText a' b' c' d' p) = true <->
    quadValue a b c d / 2 ^ (32 - Z.of_N p) = quadValue a' b' c' d' / 2 ^ (32 - Z.of_N p)).
  { unfold isIPInRange. rewrite splitCidr_cidrText by (assumption || lia).
    destruct (ipToInt_quad a b c d Ha Hb Hc Hd) as [Hz Hu].
    destruct (ipToInt_quad a' b' c' d' Ha' Hb' Hc' Hd') as [Hz' Hu'].
    destruct (ipToInt (dottedQuad a b c d)) as [|z]; [discriminate Hz|].
    destruct (ipToInt (dottedQuad a' b' c' d')) as [|z']; [discriminate Hz'|].
    clear Hz Hz'.
    unfold JS.ToUint32, JS.two32 in Hu, Hu'. change 4294967296 with (2 ^ 32) in Hu, Hu'.
    rewrite sameNetwork_bits by lia.
    rewrite <- top_bits_quotient by (try apply quadValue_range; assumption || lia).
    rewrite <- Hu, <- Hu'.
    split; intros H i Hi.
    - rewrite !testbit_mod32 by lia. apply H. exact Hi.
    - rewrite <- (testbit_mod32 z i), <- (testbit_mod32 z' i) by lia. apply H. exact Hi. }
  split; [exact Hmain|].
  intros ->. rewrite Hmain. change (32 - Z.of_N 24) with 8. unfold quadValue.
  replace (Z.of_N a * 2 ^ 24 + Z.of_N b * 2 ^ 16 + Z.of_N c * 2 ^ 8 + Z.of_N d)
    with ((Z.of_N a * 65536 + Z.of_N b * 256 + Z.of_N c) * 2 ^ 8 + Z.of_N d) by lia.
  replace (Z.of_N a' * 2 ^ 24 + Z.of_N b' * 2 ^ 16 + Z.of_N c' * 2 ^ 8 + Z.of_N d')
    with ((Z.of_N a' * 65536 + Z.of_N b' * 256 + Z.of_N c') * 2 ^ 8 + Z.of_N d') by lia.
  rewrite !Z.div_add_l, !Z.div_small by lia. lia.
Qed.

Lemma isIPInRange_cidr_witness :
  isIPInRange (dottedQuad 104 164 173 50) (cidrText 104 164 173 0 24) = true <->
  104%N = 104%N /\ 164%N = 164%N /\ 173%N = 173%N.
Proof.
  apply (isIPInRange_cidr 104 164 173 50 104 164 173 0 24); try reflexivity.
  split; discriminate.
Defined.

End Ranges.

Section RangeEdges.

Local Open Scope Z_scope.







End RangeEdges.

(** An address text with fewer than four fields has no fourth number. *)
Lemma ipToInt_few_fields ip :
  (length (JS.split "." ip) < 4)%nat -> ipToInt ip = JS.NaN.
Proof.
  intros H. unfold ipToInt.
  rewrite (nth_overflow _ JS.NaN (n := 3)) by (rewrite length_map; lia).
  match goal with |- JS.add ?x JS.NaN = _ => destruct x; reflexivity end.
Qed.

(** X4. An address text with fewer than four dot-separated fields (an IPv6
    address, a host name) converts to [NaN] and is compared with every
    range as 0.0.0.0 is: it is blocked exactly when it is not empty and is
    on the static list or 0.0.0.0 lies in a configured range (0.0.0.0/8
    blocks every such text).  Under the shipped lists it is not blocked. *)
Theorem isIPBlocked_few_fields ip :
  (length (JS.split "." ip) < 4)%nat ->
  ipToInt ip = JS.NaN /\
  (forall cidr, isIPInRange ip cidr = isIPInRange "0.0.0.0" cidr) /\
  (forall cfg,
     isIPBlocked cfg ip =
     negb (String.eqb ip "") &&
     (existsb (String.eqb ip) (knownMaliciousIPs cfg) ||
      existsb (isIPInRange "0.0.0.0") (blockedIPRanges cfg))) /\
  isIPBlocked defaultConfig ip = false.
Proof.
  intros H.
  assert (Hrange : forall cidr, isIPInRange ip cidr = isIPInRange "0.0.0.0" cidr).
  { intros cidr. unfold isIPInRange. destruct (splitCidr cidr) as [base p].
    rewrite (ipToInt_few_fields ip H). reflexivity. }
  split; [exact (ipToInt_few_fields ip H)|]. split; [exact Hrange|]. split.
  - intros cfg. unfold isIPBlocked. destruct (String.eqb ip ""); [reflexivity|].
    cbn [negb andb]. destruct (existsb (String.eqb ip) (knownMaliciousIPs cfg)); [reflexivity|].
    cbn [orb]. induction (blockedIPRanges cfg) as [|cidr ranges IH]; [reflexivity|].
    cbn [existsb]. rewrite Hrange, IH. reflexivity.
  - unfold isIPBlocked. destruct (String.eqb ip ""); [reflexivity|].
    destruct (existsb (String.eqb ip) (knownMaliciousIPs defaultConfig)) eqn:Hlisted.
    + exfalso. apply existsb_exists in Hlisted as (x & Hin & Heq).
      apply String.eqb_eq in Heq. subst x. cbn in Hin.
      repeat (destruct Hin as [<-|Hin]; [vm_compute in H; lia|]). exact Hin.
    + cbn [blockedIPRanges defaultConfig existsb]. rewrite !Hrange. reflexivity.
Qed.

Lemma isIPBlocked_few_fields_witness :
  isIPBlocked defaultConfig "fe80:0:0:0:1:2:3:4" = false /\
  isIPBlocked (configureMaliciousIPs [] ["0.0.0.0/8"] defaultConfig) "localhost" = true.
Proof.
  destruct (isIPBlocked_few_fields "fe80:0:0:0:1:2:3:4") as (_ & _ & _ & Hshipped);
    [vm_compute; lia|].
  destruct (isIPBlocked_few_fields "localhost") as (_ & _ & Hany & _); [vm_compute; lia|].
  split; [exact Hshipped|]. rewrite Hany. vm_compute. reflexivity.
Defined.

(** ** Extending the static lists *)

Lemma addMaliciousIP_keeps x ip ips : In x ips -> In x (addMaliciousIP ip ips).
Proof.
  intros H. unfold addMaliciousIP. destruct (_ && _); [|exact H].
  apply in_or_app. left. exact H.
Qed.

Lemma addMaliciousIP_adds ip ips : ip <> "" -> In ip (addMaliciousIP ip ips).
Proof.
  intros Hne. unfold addMaliciousIP.
  destruct (String.eqb_spec ip ""); [contradiction|]. cbn [negb andb].
  destruct (existsb (String.eqb ip) ips) eqn:Hin; cbn [negb].
  - apply existsb_exists in Hin as (x & Hx & Heq). apply String.eqb_eq in Heq. congruence.
  - apply in_or_app. right. left. reflexivity.
Qed.

Lemma addMaliciousIP_NoDup ip ips : NoDup ips -> NoDup (addMaliciousIP ip ips).
Proof.
  intros Hnd. unfold addMaliciousIP.
  destruct (negb (String.eqb ip "")); cbn [andb]; [|exact Hnd].
  destruct (existsb (String.eqb ip) ips) eqn:Hin; cbn [negb]; [exact Hnd|].
  apply NoDup_app. split; [exact Hnd|]. split; [|apply NoDup_singleton].
  intros x Hx Hx'. apply list_elem_of_singleton in Hx'. subst x.
  apply list_elem_of_In in Hx.
  assert (Hex : existsb (String.eqb ip) ips = true)
    by (apply existsb_exists; exists ip; split; [exact Hx | apply String.eqb_refl]).
  congruence.
Qed.

Lemma addMaliciousIPs_keeps x ips acc :
  In x acc -> In x (fold_left (fun acc ip => addMaliciousIP ip acc) ips acc).
Proof.
  revert acc. induction ips as [|ip ips IH]; intros acc H; cbn; [exact H|].
  apply IH, addMaliciousIP_keeps, H.
Qed.

Lemma addMaliciousIPs_adds x ips acc :
  In x ips -> x <> "" -> In x (fold_left (fun acc ip => addMaliciousIP ip acc) ips acc).
Proof.
  revert acc. induction ips as [|ip ips IH]; intros acc Hin Hne; cbn; [destruct Hin|].
  destruct Hin as [->|Hin].
  - apply addMaliciousIPs_keeps, addMaliciousIP_adds, Hne.
  - apply IH; assumption.
Qed.

Lemma addMaliciousIPs_NoDup ips acc :
  NoDup acc -> NoDup (fold_left (fun acc ip => addMaliciousIP ip acc) ips acc).
Proof.
  revert acc. induction ips as [|ip ips IH]; intros acc H; cbn; [exact H|].
  apply IH, addMaliciousIP_NoDup, H.
Qed.

Lemma isIPBlocked_true_iff cfg ip :
  isIPBlocked cfg ip = true <->
  ip <> "" /\ (In ip (knownMaliciousIPs cfg) \/
               exists cidr, In cidr (blockedIPRanges cfg) /\ isIPInRange ip cidr = true).
Proof.
  unfold isIPBlocked. destruct (String.eqb_spec ip "") as [->|Hne].
  - split; [discriminate | intros [H _]; contradiction].
  - destruct (existsb (String.eqb ip) (knownMaliciousIPs cfg)) eqn:Hlisted.
    + split; [|reflexivity]. intros _. split; [exact Hne|]. left.
      apply existsb_exists in Hlisted as (x & Hx & Heq).
      apply String.eqb_eq in Heq. congruence.
    + rewrite existsb_exists. split.
      * intros H. split; [exact Hne|]. right. exact H.
      * intros [_ [Hin|H]]; [|exact H].
        rewrite existsb_eqb_In in Hlisted by exact Hin. discriminate.
Qed.

(** X5. [configureMaliciousIPs] only ever blocks more: what was blocked
    stays blocked, every non-empty address given is blocked, every
    non-empty address inside a range given is blocked, and a static list
    without repetitions stays without.  The ranges given are appended to
    the configured ones as they are, and the other settings (bot
    signatures, security tools, suspicious patterns, thresholds) are
    untouched. *)
Theorem configureMaliciousIPs_extends cfg ips ranges :
  let cfg' := configureMaliciousIPs ips ranges cfg in
  (forall ip, isIPBlocked cfg ip = true -> isIPBlocked cfg' ip = true) /\
  (forall ip, In ip ips -> ip <> "" -> isIPBlocked cfg' ip = true) /\
  (forall ip cidr, In cidr ranges -> ip <> "" -> isIPInRange ip cidr = true ->
     isIPBlocked cfg' ip = true) /\
  (NoDup (knownMaliciousIPs cfg) -> NoDup (knownMaliciousIPs cfg')) /\
  blockedIPRanges cfg' = (blockedIPRanges cfg ++ ranges)%list /\
  knownBotSignatures cfg' = knownBotSignatures cfg /\
  securityTools cfg' = securityTools cfg /\
  suspiciousPatterns cfg' = suspiciousPatterns cfg /\
  thresholds cfg' = thresholds cfg.
Proof.
  cbv zeta. split; [|split; [|split; [|split]]].
  - intros ip. rewrite !isIPBlocked_true_iff. intros [Hne [Hin|(cidr & Hin & Hr)]].
    + split; [exact Hne|]. left. cbn. apply addMaliciousIPs_keeps, Hin.
    + split; [exact Hne|]. right. exists cidr. split; [|exact Hr].
      cbn. apply in_or_app. left. exact Hin.
  - intros ip Hin Hne. apply isIPBlocked_true_iff. split; [exact Hne|]. left.
    cbn. apply addMaliciousIPs_adds; assumption.
  - intros ip cidr Hin Hne Hr. apply isIPBlocked_true_iff. split; [exact Hne|]. right.
    exists cidr. split; [|exact Hr]. cbn. apply in_or_app. right. exact Hin.
  - cbn. apply addMaliciousIPs_NoDup.
  - repeat split; reflexivity.
Qed.

(** ** The client identifier *)

Lemma list_ascii_of_string_app s t :
  list_ascii_of_string (s ++ t) = (list_ascii_of_string s ++ list_ascii_of_string t)%list.
Proof.
  induction s as [|c s IH]; [reflexivity|].
  change (c :: list_ascii_of_string (s ++ t) =
          c :: (list_ascii_of_string s ++ list_ascii_of_string t)%list).
  rewrite IH. reflexivity.
Qed.

Lemma list_ascii_of_string_length s :
  length (list_ascii_of_string s) = String.length s.
Proof. induction s as [|c s IH]; simpl; [reflexivity|]. rewrite IH. reflexivity. Qed.

(** Base64 works on groups of three bytes: whole groups encode on their
    own, four characters each. *)
Lemma b64_encode_groups k : forall l1 l2,
  length l1 = (3 * k)%nat ->
  JS.b64_encode (l1 ++ l2) = JS.b64_encode l1 ++ JS.b64_encode l2 /\
  String.length (JS.b64_encode l1) = (4 * k)%nat.
Proof.
  induction k as [|k IH]; intros l1 l2 Hlen.
  - destruct l1; [split; reflexivity | discriminate].
  - destruct l1 as [|a [|b [|c l1]]]; try (cbn in Hlen; lia).
    destruct (IH l1 l2) as [Happ Hlen']; [cbn in Hlen; lia|].
    split.
    + cbn [app]. cbn [JS.b64_encode]. rewrite Happ. reflexivity.
    + cbn [JS.b64_encode String.length]. rewrite Hlen'. lia.
Qed.

Lemma substring_prefix s t :
  String.substring 0 (String.length s) (s ++ t) = s.
Proof.
  induction s as [|c s IH]; [destruct t; reflexivity|].
  change (String c (String.substring 0 (String.length s) (s ++ t)) = String c s).
  rewrite IH. reflexivity.
Qed.

Lemma join_cons_app sep p q rest :
  JS.join sep (p :: q :: rest) = p ++ sep ++ JS.join sep (q :: rest).
Proof. reflexivity. Qed.

Lemma string_app_assoc (s t u : string) : (s ++ t) ++ u = s ++ (t ++ u).
Proof.
  induction s as [|c s IH]; [reflexivity|].
  change (String c ((s ++ t) ++ u) = String c (s ++ (t ++ u))).
  rewrite IH. reflexivity.
Qed.

(** X6. The identifier is the base64 of the first 24 characters of the
    joined components, so for a user agent of 24 characters or more it is
    the base64 of those 24 characters: two clients whose user agents start
    alike have one identifier, whatever their language, screen, platform,
    canvas and preferences. *)
Theorem clientIdentifier_user_agent_prefix h prefs start rest :
  String.length start = 24%nat ->
  userAgent h = start ++ rest ->
  clientIdentifier h prefs = JS.btoa start /\
  (forall h' prefs' rest',
     userAgent h' = start ++ rest' ->
     clientIdentifier h' prefs' = clientIdentifier h prefs).
Proof.
  intros Hlen Hua.
  assert (Hid : forall h0 prefs0 rest0,
            userAgent h0 = start ++ rest0 -> clientIdentifier h0 prefs0 = JS.btoa start).
  { intros h0 prefs0 rest0 Hua0. unfold clientIdentifier, JS.substring0, JS.btoa.
    assert (Hjoin : forall others, others <> [] ->
              exists tail, JS.join "|" (userAgent h0 :: others) = start ++ tail).
    { intros [|q others] Hne; [contradiction|].
      rewrite join_cons_app, Hua0, string_app_assoc. eexists; reflexivity. }
    destruct (allowCanvas prefs0); cbn [app];
      match goal with
      | |- context [JS.join "|" (userAgent h0 :: ?l)] =>
          destruct (Hjoin l) as [tail Ht]; [discriminate | rewrite Ht]
      end;
      (rewrite list_ascii_of_string_app, map_app;
       destruct (b64_encode_groups 8 (map N_of_ascii (list_ascii_of_string start))
                   (map N_of_ascii (list_ascii_of_string tail))) as [Happ Hlen32];
       [ rewrite length_map, list_ascii_of_string_length, Hlen; reflexivity
       | rewrite Happ; change 32%nat with (4 * 8)%nat; rewrite <- Hlen32;
         apply substring_prefix ]). }
  split; [apply (Hid h prefs rest Hua)|].
  intros h' prefs' rest' Hua'. rewrite (Hid h' prefs' rest' Hua'), (Hid h prefs rest Hua).
  reflexivity.
Qed.

Lemma clientIdentifier_user_agent_prefix_witness :
  clientIdentifier desktopHost defaultPreferences = JS.btoa "Mozilla/5.0 (X11; Linux ".
Proof.
  exact (proj1 (clientIdentifier_user_agent_prefix desktopHost defaultPreferences
                  "Mozilla/5.0 (X11; Linux " "x86_64) Gecko/20100101" eq_refl eq_refl)).
Defined.

(** ** The ledger: how its operations compose *)

Lemma assignProperty_lookup_ne {A} key (v : A) (o : gmap string A) other :
  other <> key -> assignProperty key v o !! other = o !! other.
Proof.
  intros Hne. unfold assignProperty.
  destruct (_ && _); [reflexivity|]. apply lookup_insert_ne. congruence.
Qed.

Lemma assignProperty_proto {A} (v : A) (o : gmap string A) :
  o !! "__proto__" = None -> assignProperty "__proto__" v o = o.
Proof.
  intros Hnone. unfold assignProperty.
  rewrite (bool_decide_eq_true_2 _ Hnone). reflexivity.
Qed.

(** X7. Over a store that works, a client put on the blacklist at [now] is
    reported as blacklisted at exactly the instants before
    [now + blacklistDuration * 1000], and the answer for every other client
    is what it was.  The one identifier this fails for is [__proto__],
    which [getClientIdentifier] never returns: on a blacklist without an
    entry of that name the assignment sets the object's prototype, so the
    stored blacklist is as before, the identifier is still pushed onto the
    runtime list, and the client is reported as not blacklisted. *)
Theorem addToBlacklist_then_listed cfg now clientId reasons st :
  storageWorks st ->
  let st' := (addToBlacklist cfg now clientId reasons st).2 in
  storageWorks st' /\
  (clientId <> "__proto__" ->
   forall now',
     isClientBlacklisted now' clientId st' =
     (Normal (now' <? now + blacklistDuration (thresholds cfg) * 1000)%Z, st')) /\
  (forall other now',
     other <> clientId ->
     returned (isClientBlacklisted now' other st') = returned (isClientBlacklisted now' other st)) /\
  (clientId = "__proto__" ->
   storedBlacklist st !! clientId = None ->
   storedBlacklist st' = storedBlacklist st /\
   blacklistedIPs st' = (blacklistedIPs st ++ [clientId])%list /\
   forall now', returned (isClientBlacklisted now' clientId st') = Some false).
Proof.
  intros (Hr & Hw & Hg) st'.
  assert (Hst' : st' =
    set_blacklistedIPs (fun ips => (ips ++ [clientId])%list)
      (set_localStorage
         (store_blacklist
            (Json (assignProperty clientId (newEntry cfg now reasons)
                     (storedBlacklist st)))) st)).
  { unfold st'. rewrite addToBlacklist_run. cbn [snd]. rewrite Hr, Hw. cbn [andb].
    destruct (captcha_blacklist (localStorage st)) as [[|m]|]; [congruence | reflexivity..]. }
  assert (Hstored : storedBlacklist st' =
                    assignProperty clientId (newEntry cfg now reasons) (storedBlacklist st))
    by (rewrite Hst'; reflexivity).
  assert (Hr' : readable (localStorage st') = true) by (rewrite Hst'; exact Hr).
  split; [|split; [|split]].
  - rewrite Hst'. repeat split; cbn; [exact Hr | exact Hw | discriminate].
  - intros Hne now'.
    rewrite isClientBlacklisted_run, Hr', Hstored, (assignProperty_insert _ _ _ Hne),
      lookup_insert_eq. reflexivity.
  - intros other now' Hne. rewrite !isClientBlacklisted_run. unfold returned. cbn [fst].
    rewrite Hr', Hr, Hstored, assignProperty_lookup_ne by exact Hne. reflexivity.
  - intros -> Hnone. rewrite Hstored, (assignProperty_proto _ _ Hnone).
    split; [reflexivity|]. split; [rewrite Hst'; reflexivity|].
    intros now'. rewrite isClientBlacklisted_run. unfold returned. cbn [fst].
    rewrite Hstored, (assignProperty_proto _ _ Hnone), Hnone, andb_false_r. reflexivity.
Qed.

Lemma addToBlacklist_then_listed_witness :
  isClientBlacklisted 86400099 "client-z"
    (addToBlacklist defaultConfig 100 "client-z" [] listedState).2 =
  (Normal true, (addToBlacklist defaultConfig 100 "client-z" [] listedState).2) /\
  returned (isClientBlacklisted 101 "__proto__"
              (addToBlacklist defaultConfig 100 "__proto__" [] listedState).2) = Some false.
Proof.
  destruct (addToBlacklist_then_listed defaultConfig 100 "client-z" [] listedState)
    as (_ & Hlisted & _); [repeat split; discriminate|].
  destruct (addToBlacklist_then_listed defaultConfig 100 "__proto__" [] listedState)
    as (_ & _ & _ & Hproto); [repeat split; discriminate|].
  split.
  - exact (Hlisted ltac:(discriminate) 86400099%Z).
  - destruct Hproto as (_ & _ & Hfalse); [reflexivity|reflexivity|]. exact (Hfalse 101%Z).
Defined.

(** X8. A clean-up pass never changes a verdict from then on: at every
    instant from [now] onwards [isClientBlacklisted] answers after the pass
    what it answered before it, whatever the store does. *)
Theorem cleanupExpiredEntries_keeps_verdicts now now' clientId st :
  (now <= now')%Z ->
  returned (isClientBlacklisted now' clientId (cleanupExpiredEntries now st).2) =
  returned (isClientBlacklisted now' clientId st).
Proof.
  intros Hle. rewrite cleanupExpiredEntries_run. cbn [snd].
  rewrite !isClientBlacklisted_run. unfold returned. cbn [fst].
  destruct (readable (localStorage st)) eqn:Hr; [|rewrite Hr; reflexivity].
  destruct (captcha_blacklist (localStorage st)) as [[|m]|] eqn:Hb; try (rewrite Hr; reflexivity).
  cbv zeta.
  destruct ((foldl (cleanupStep now) (m, false) (Object_keys m)).2 &&
            writable (localStorage st)); [|rewrite Hr; reflexivity].
  cbn [readable localStorage set_blacklistedIPs set_localStorage store_blacklist].
  rewrite Hr. cbn [andb]. unfold storedBlacklist.
  cbn [captcha_blacklist localStorage set_blacklistedIPs set_localStorage store_blacklist].
  rewrite Hb, cleanup_loop_all.
  destruct (m !! clientId) as [entry|]; [|reflexivity]. cbn. unfold keepUnexpired.
  destruct (expires entry <? now)%Z eqn:Hexp; [|reflexivity].
  apply Z.ltb_lt in Hexp. f_equal. symmetry. apply Z.ltb_ge. lia.
Qed.

Lemma cleanupExpiredEntries_keeps_verdicts_witness :
  returned (isClientBlacklisted 2500 "client-b" (cleanupExpiredEntries 2000 mixedState).2) =
  returned (isClientBlacklisted 2500 "client-b" mixedState).
Proof.
  apply (cleanupExpiredEntries_keeps_verdicts 2000 2500 "client-b" mixedState). lia.
Defined.

(** ** The runtime list *)

Lemma Object_keys_elem {A} (m : gmap string A) k :
  k ∈ Object_keys m <-> is_Some (m !! k).
Proof.
  unfold Object_keys. rewrite list_elem_of_fmap. split.
  - intros ([k' x] & -> & Hin). apply elem_of_map_to_list in Hin. eauto.
  - intros [x Hx]. exists (k, x). split; [reflexivity|]. apply elem_of_map_to_list. exact Hx.
Qed.

Lemma loadBlacklist_run st :
  loadBlacklist st =
  (Normal tt,
   set_blacklistedIPs
     (fun _ => if readable (localStorage st)
               then match captcha_blacklist (localStorage st) with
                    | Some Garbage => []
                    | _ => Object_keys (storedBlacklist st)
                    end
               else []) st).
Proof.
  unfold loadBlacklist, storedBlacklist. unfold_M.
  destruct (readable (localStorage st)); [|reflexivity].
  destruct (captcha_blacklist (localStorage st)) as [[|m]|]; reflexivity.
Qed.

Lemma keepUnexpired_is_Some now (m : gmap string BlacklistEntry) k :
  is_Some (m !! k ≫= keepUnexpired now) <->
  exists entry, m !! k = Some entry /\ (now <= expires entry)%Z.
Proof.
  destruct (m !! k) as [entry|]; cbn.
  - unfold keepUnexpired. destruct (expires entry <? now)%Z eqn:Hexp.
    + apply Z.ltb_lt in Hexp. split; [intros [? [=]]|intros (e & [= <-] & ?); lia].
    + apply Z.ltb_ge in Hexp. split; [eauto|intros _; eauto].
  - split; [intros [? [=]]|intros (? & [=] & _)].
Qed.

(** X9. What [init] leaves on the runtime list.  Over a store that works,
    [loadBlacklist] followed by [cleanupExpiredEntries] lists exactly the
    clients whose stored entry has not expired before [now] (an entry
    expiring at [now] itself is still listed), and the list then names
    exactly the clients the store holds.  Over a store that cannot be read,
    or whose blacklist text does not parse, the list is empty and the store
    is left as it is. *)
Theorem initLedger_runtime_list now st :
  let st' := (initLedger now st).2 in
  (storageWorks st ->
   (forall clientId,
      clientId ∈ blacklistedIPs st' <->
      exists entry, storedBlacklist st !! clientId = Some entry /\ (now <= expires entry)%Z) /\
   inStep st') /\
  (readable (localStorage st) = false \/ captcha_blacklist (localStorage st) = Some Garbage ->
   blacklistedIPs st' = [] /\ localStorage st' = localStorage st).
Proof.
  assert (Hinit : (initLedger now st).2 = (cleanupExpiredEntries now (loadBlacklist st).2).2).
  { unfold initLedger. unfold_M. rewrite loadBlacklist_run. reflexivity. }
  cbv zeta. rewrite Hinit, loadBlacklist_run. cbn [snd].
  rewrite cleanupExpiredEntries_run. cbn [snd].
  cbn [readable writable captcha_blacklist localStorage set_blacklistedIPs].
  split.
  - intros (Hr & Hw & Hg). rewrite Hr, Hw.
    destruct (captcha_blacklist (localStorage st)) as [[|m]|] eqn:Hb; [congruence| |].
    + assert (Hs : storedBlacklist st = m) by (unfold storedBlacklist; rewrite Hb; reflexivity).
      rewrite Hs. cbv zeta. rewrite andb_true_r.
      destruct ((foldl (cleanupStep now) (m, false) (Object_keys m)).2) eqn:Hflag.
      * assert (Hstored : forall k,
                  (foldl (cleanupStep now) (m, false) (Object_keys m)).1 !! k =
                  m !! k ≫= keepUnexpired now) by (intros k; apply cleanup_loop_all).
        split.
        -- intros k. cbn. rewrite Object_keys_elem, Hstored. apply keepUnexpired_is_Some.
        -- intros k. cbn. apply Object_keys_elem.
      * pose proof (cleanup_loop_unmodified now _ _ _ Hflag) as Hsame.
        pose proof (cleanup_loop_all now m) as Hall. rewrite Hsame in Hall. cbn [fst] in Hall.
        split.
        -- intros k. cbn. rewrite Object_keys_elem.
           rewrite <- (keepUnexpired_is_Some now m k), <- Hall. reflexivity.
        -- intros k. cbn. unfold storedBlacklist. cbn. rewrite Hb. apply Object_keys_elem.
    + assert (Hs : storedBlacklist st = ∅) by (unfold storedBlacklist; rewrite Hb; reflexivity).
      rewrite Hs, (@Object_keys_empty BlacklistEntry). split.
      * intros k. cbn. rewrite lookup_empty.
        split; [intros Hin; inversion Hin|intros (? & [=] & _)].
      * intros k. cbn. unfold storedBlacklist. cbn. rewrite Hb, lookup_empty.
        split; [intros Hin; inversion Hin|intros [? [=]]].
  - intros [Hr|Hg].
    + rewrite Hr. split; reflexivity.
    + rewrite Hg. destruct (readable (localStorage st)); split; reflexivity.
Qed.

Lemma initLedger_runtime_list_witness :
  ("client-b" ∈ blacklistedIPs (initLedger 2000 mixedState).2 <->
   exists entry, storedBlacklist mixedState !! "client-b" = Some entry /\
                 (2000 <= expires entry)%Z) /\
  blacklistedIPs (initLedger 2000 (freshState false)).2 = [].
Proof.
  destruct (initLedger_runtime_list 2000 mixedState) as [Hworks _].
  destruct (initLedger_runtime_list 2000 (freshState false)) as [_ Hdown].
  split.
  - destruct Hworks as [Hlist _]; [repeat split; discriminate|]. apply Hlist.
  - apply Hdown. left. reflexivity.
Defined.

Lemma inStep_ext st st' :
  blacklistedIPs st' = blacklistedIPs st ->
  captcha_blacklist (localStorage st') = captcha_blacklist (localStorage st) ->
  inStep st -> inStep st'.
Proof.
  intros Hips Hbl Hstep k. unfold storedBlacklist. rewrite Hips, Hbl. apply Hstep.
Qed.

Lemma inStep_addToBlacklist cfg now clientId reasons st :
  clientId <> "__proto__" ->
  inStep st -> inStep (addToBlacklist cfg now clientId reasons st).2.
Proof.
  intros Hproto Hstep. rewrite addToBlacklist_run. cbn [snd].
  rewrite (assignProperty_insert _ _ _ Hproto).
  destruct (readable (localStorage st) && writable (localStorage st)); [|exact Hstep].
  destruct (captcha_blacklist (localStorage st)) as [[|m]|] eqn:Hb; [exact Hstep| |].
  all: intros k; cbn; rewrite elem_of_app, list_elem_of_singleton, lookup_insert_is_Some;
    rewrite (Hstep k); destruct (decide (clientId = k)) as [->|Hne]; intuition congruence.
Qed.

Lemma inStep_cleanupExpiredEntries now st :
  inStep st -> inStep (cleanupExpiredEntries now st).2.
Proof.
  intros Hstep. rewrite cleanupExpiredEntries_run. cbn [snd].
  destruct (readable (localStorage st)); [|exact Hstep].
  destruct (captcha_blacklist (localStorage st)) as [[|m]|]; try exact Hstep.
  cbv zeta. destruct (_ && _); [|exact Hstep].
  intros k. cbn. apply Object_keys_elem.
Qed.

Lemma inStep_recordFailedAttempt cfg h now why st :
  inStep st -> inStep (recordFailedAttempt cfg h now why st).2.
Proof.
  intros Hstep. rewrite recordFailedAttempt_run. cbn [snd]. cbv zeta.
  rewrite saveFailedAttempts_run. cbn [snd].
  match goal with
  | |- inStep (if _ then set_localStorage _ ?s else ?s) =>
      assert (Hs : inStep s); [|destruct (writable (localStorage s)); [|exact Hs];
                                 revert Hs; apply inStep_ext; reflexivity]
  end.
  destruct (_ <=? _)%Z.
  - eapply inStep_ext;
      [| |apply inStep_addToBlacklist;
          [apply clientIdentifier_not_proto|eapply inStep_ext; [| |exact Hstep]]];
      reflexivity.
  - revert Hstep. apply inStep_ext; reflexivity.
Qed.

(** X10. The runtime list stays in step with the store.  For a stored
    blacklist that is absent, does not parse, or is an object of entries:
    if [blacklistedIPs] names exactly the clients the stored blacklist
    holds, it still does after [cleanupExpiredEntries],
    [recordFailedAttempt] and [checkBlacklist], and after [addToBlacklist]
    for every identifier but [__proto__], whether or not the store can be
    read or written at the time.  Over a store that works,
    [addToBlacklist] for [__proto__] on a blacklist without an entry of
    that name breaks it: the identifier is listed and nothing is stored. *)
Theorem ledger_keeps_runtime_list cfg h now clientId reasons why st :
  inStep st ->
  (clientId <> "__proto__" -> inStep (addToBlacklist cfg now clientId reasons st).2) /\
  inStep (cleanupExpiredEntries now st).2 /\
  inStep (recordFailedAttempt cfg h now why st).2 /\
  inStep (checkBlacklist cfg h now st).2 /\
  (storageWorks st -> storedBlacklist st !! "__proto__" = None ->
   ~ inStep (addToBlacklist cfg now "__proto__" reasons st).2).
Proof.
  intros Hstep. split; [|split; [|split; [|split]]].
  - intros Hproto. apply inStep_addToBlacklist; assumption.
  - apply inStep_cleanupExpiredEntries, Hstep.
  - apply inStep_recordFailedAttempt, Hstep.
  - rewrite checkBlacklist_run.
    repeat match goal with |- context [if ?c then (_, _) else _] => destruct c end;
      cbn [snd]; first [exact Hstep | apply inStep_recordFailedAttempt, Hstep].
  - intros (Hr & Hw & Hg) Hnone Hbroken.
    specialize (Hbroken "__proto__"). revert Hbroken.
    rewrite addToBlacklist_run. cbn [snd]. rewrite Hr, Hw. cbn [andb].
    rewrite (assignProperty_proto _ _ Hnone).
    assert (Hstored : forall ips,
              storedBlacklist
                (set_blacklistedIPs ips
                   (set_localStorage (store_blacklist (Json (storedBlacklist st))) st)) =
              storedBlacklist st) by reflexivity.
    destruct (captcha_blacklist (localStorage st)) as [[|m]|] eqn:Hb; [congruence| |];
      rewrite Hstored, Hnone; cbn [blacklistedIPs set_blacklistedIPs set_localStorage];
      intros [Hin _]; (destruct Hin as [x Hx]; [|discriminate Hx]);
      apply elem_of_app; right; apply list_elem_of_singleton; reflexivity.
Qed.

Lemma ledger_keeps_runtime_list_witness :
  inStep (recordFailedAttempt defaultConfig desktopHost 2000 "honeypot_filled" listedState).2 /\
  inStep (addToBlacklist defaultConfig 2000 "client-z" [] listedState).2 /\
  ~ inStep (addToBlacklist defaultConfig 2000 "__proto__" [] listedState).2.
Proof.
  assert (Hstep : inStep listedState).
  { intros k. cbn. rewrite list_elem_of_singleton.
    destruct (decide (k = "client-a")) as [->|Hne].
    - rewrite lookup_singleton_eq. split; [eauto|reflexivity].
    - rewrite lookup_singleton_ne by congruence. split; [congruence|intros [? [=]]]. }
  destruct (ledger_keeps_runtime_list defaultConfig desktopHost 2000 "client-z" []
              "honeypot_filled" listedState Hstep) as (Hadd & _ & Hrecord & _ & Hproto).
  split; [exact Hrecord|]. split; [apply Hadd; discriminate|].
  apply Hproto; [repeat split; discriminate|reflexivity].
Defined.

(** ** Repeated visits *)




(** ** One client at a time *)

Lemma addToBlacklist_other cfg now clientId reasons st other :
  other <> clientId ->
  storedBlacklist (addToBlacklist cfg now clientId reasons st).2 !! other =
  storedBlacklist st !! other.
Proof.
  intros Hne. rewrite addToBlacklist_run. cbn [snd].
  destruct (_ && _); [|reflexivity].
  destruct (captcha_blacklist (localStorage st)) as [[|m]|] eqn:Hb; [reflexivity| |].
  all: unfold storedBlacklist at 1; cbn; rewrite assignProperty_lookup_ne by exact Hne;
    reflexivity.
Qed.

Lemma recordFailedAttempt_storedBlacklist cfg h now why st :
  let clientId := clientIdentifier h (userPreferences st) in
  forall other, other <> clientId ->
  storedBlacklist (recordFailedAttempt cfg h now why st).2 !! other =
  storedBlacklist st !! other.
Proof.
  cbv zeta. intros other Hne. rewrite recordFailedAttempt_run. cbn [snd]. cbv zeta.
  rewrite saveFailedAttempts_run. cbn [snd].
  match goal with
  | |- storedBlacklist (if _ then set_localStorage _ ?s else ?s) !! _ = _ =>
      transitivity (storedBlacklist s !! other);
        [destruct (writable (localStorage s)); reflexivity|]
  end.
  destruct (_ <=? _)%Z; [|reflexivity].
  change (storedBlacklist (set_failedAttempts ?f ?s)) with (storedBlacklist s).
  rewrite addToBlacklist_other by exact Hne. reflexivity.
Qed.

(** X12. A recorded failure concerns the calling browser only: for every
    other client the failure record, the stored blacklist entry and the
    answer of [isClientBlacklisted] at any instant are what they were
    before the call, whatever the state of the store. *)
Theorem recordFailedAttempt_other_clients cfg h now why st other :
  let st' := (recordFailedAttempt cfg h now why st).2 in
  other <> clientIdentifier h (userPreferences st) ->
  failedAttempts st' !! other = failedAttempts st !! other /\
  storedBlacklist st' !! other = storedBlacklist st !! other /\
  (forall now',
     returned (isClientBlacklisted now' other st') =
     returned (isClientBlacklisted now' other st)).
Proof.
  cbv zeta. intros Hne. split; [|split].
  - rewrite recordFailedAttempt_failedAttempts.
    destruct (_ <=? _)%Z;
      [rewrite lookup_delete_ne by congruence|rewrite lookup_insert_ne by congruence];
      reflexivity.
  - apply recordFailedAttempt_storedBlacklist, Hne.
  - intros now'. rewrite !isClientBlacklisted_run. unfold returned. cbn [fst].
    destruct (recordFailedAttempt_frame cfg h now why st) as (-> & _).
    rewrite recordFailedAttempt_storedBlacklist by exact Hne. reflexivity.
Qed.

Lemma recordFailedAttempt_other_clients_witness :
  storedBlacklist
    (recordFailures defaultConfig desktopHost [(30, "no_interactions")]%Z
       (recordFailures defaultConfig desktopHost (take 2 threeFailures) listedState))
    !! "client-a" =
  storedBlacklist
    (recordFailures defaultConfig desktopHost (take 2 threeFailures) listedState)
    !! "client-a".
Proof.
  apply (recordFailedAttempt_other_clients defaultConfig desktopHost 30 "no_interactions"
           (recordFailures defaultConfig desktopHost (take 2 threeFailures) listedState)
           "client-a").
  vm_compute. discriminate.
Defined.

(** ** The failure records *)

Lemma recordsWellFormed_recordFailedAttempt cfg h now why st :
  recordsWellFormed cfg st -> recordsWellFormed cfg (recordFailedAttempt cfg h now why st).2.
Proof.
  unfold recordsWellFormed. intros Hwf. rewrite recordFailedAttempt_failedAttempts.
  set (clientId := clientIdentifier h (userPreferences st)).
  destruct (_ <=? _)%Z eqn:Hmax.
  - apply map_Forall_delete, Hwf.
  - apply Z.leb_gt in Hmax. apply map_Forall_insert_2; [|exact Hwf].
    cbn [count fr_reasons pushReason incrementCount] in *.
    rewrite length_app. cbn [length].
    destruct (failedAttempts st !! clientId) as [record|] eqn:Hrec; cbn [default] in *.
    + destruct (Hwf _ _ Hrec) as [Hcount Hlen]. unfold id in *. lia.
    + cbn in *. lia.
Qed.

(** X13. The failure records stay well formed: if every pending record
    holds a count of at least one and below [maxFailedAttempts], with one
    reason per counted failure, then so does every record after
    [recordFailedAttempt] and after [checkBlacklist], whatever the state of
    the store: no record is ever left at or above the threshold. *)
Theorem failure_records_stay_well_formed cfg h now why st :
  recordsWellFormed cfg st ->
  recordsWellFormed cfg (recordFailedAttempt cfg h now why st).2 /\
  recordsWellFormed cfg (checkBlacklist cfg h now st).2.
Proof.
  intros Hwf. split.
  - apply recordsWellFormed_recordFailedAttempt, Hwf.
  - rewrite checkBlacklist_run.
    repeat match goal with |- context [if ?c then (_, _) else _] => destruct c end;
      cbn [snd]; first [exact Hwf | apply recordsWellFormed_recordFailedAttempt, Hwf].
Qed.

Lemma failure_records_stay_well_formed_witness :
  recordsWellFormed defaultConfig
    (recordFailedAttempt defaultConfig desktopHost 20 "no_interactions" pendingState).2.
Proof.
  apply (failure_records_stay_well_formed defaultConfig desktopHost 20 "no_interactions"
           pendingState).
  apply map_Forall_singleton. cbn. lia.
Defined.

(** X14. The stored failure records are the ones in memory: over a store
    that can be written, the text [recordFailedAttempt] leaves under
    [captcha_failed_attempts] parses to the records the session holds, so
    that [loadFailedAttempts] right after it changes nothing; over a store
    that cannot be written the stored text is left as it was. *)
Theorem failed_attempts_saved cfg h now why st :
  let st' := (recordFailedAttempt cfg h now why st).2 in
  (writable (localStorage st) = true ->
   captcha_failed_attempts (localStorage st') = Some (Json (failedAttempts st')) /\
   (readable (localStorage st) = true -> loadFailedAttempts st' = (Normal tt, st'))) /\
  (writable (localStorage st) = false ->
   captcha_failed_attempts (localStorage st') = captcha_failed_attempts (localStorage st)).
Proof.
  cbv zeta.
  destruct (recordFailedAttempt_frame cfg h now why st) as (Hr & Hw & _).
  pose proof (recordFailedAttempt_run cfg h now why st) as Hrun. cbv zeta in Hrun.
  rewrite Hrun in *. cbn [snd] in *. clear Hrun.
  rewrite saveFailedAttempts_run in *. cbn [snd] in *.
  match goal with
  | |- context [if writable (localStorage ?s) then _ else _] => set (st2 := s) in *
  end.
  split.
  - intros Hwrite. rewrite Hwrite in Hw. destruct (writable (localStorage st2)) eqn:Hw2.
    + split; [reflexivity|]. intros Hread. rewrite Hread in Hr.
      unfold loadFailedAttempts. unfold_M.
      cbn [readable localStorage set_localStorage store_failed_attempts] in *.
      rewrite Hr. destruct st2 as [[? ? ? ?] ? ? ? ?]. reflexivity.
    + cbn in Hw. congruence.
  - intros Hwrite. rewrite Hwrite in Hw. destruct (writable (localStorage st2)) eqn:Hw2.
    + cbn in Hw. congruence.
    + subst st2. destruct (_ <=? _)%Z; [|reflexivity].
      cbn [localStorage set_failedAttempts]. rewrite addToBlacklist_run. cbn [snd].
      cbn [readable writable localStorage set_failedAttempts]. rewrite Hwrite, andb_false_r.
      reflexivity.
Qed.

Lemma failed_attempts_saved_witness :
  captcha_failed_attempts
    (localStorage (recordFailedAttempt defaultConfig desktopHost 20 "no_interactions"
                     pendingState).2) =
  Some (Json (failedAttempts (recordFailedAttempt defaultConfig desktopHost 20
                                "no_interactions" pendingState).2)).
Proof.
  destruct (failed_attempts_saved defaultConfig desktopHost 20 "no_interactions" pendingState)
    as [Hup _].
  destruct Hup as [Hsaved _]; [reflexivity|exact Hsaved].
Defined.

(** ** Detection: what it takes *)

(** X15. One sign is enough: [hasTooManySuspiciousPatterns] answers true
    exactly when an enabled check counted a suspicion, that is when the
    identity check is on and the user agent names Chrome without the
    [chrome] global or Firefox without [InstallTrigger], or the error-trace
    check is on and the trace is missing, empty or not a string; with at
    most two checks the 30 % bound excludes nothing else. *)
Theorem hasTooManySuspiciousPatterns_one_sign cfg h fingerprint :
  let ua := JS.toLowerCase (userAgent h) in
  hasTooManySuspiciousPatterns cfg h fingerprint =
    (0 <? suspiciousCount (suspicionCounters cfg h))%nat /\
  hasTooManySuspiciousPatterns cfg h fingerprint =
    (mismatchedUA (suspiciousPatterns cfg) &&
       (JS.includes ua "chrome" && String.eqb (JS.typeof (chrome h)) "undefined" ||
        JS.includes ua "firefox" && String.eqb (JS.typeof (InstallTrigger h)) "undefined")) ||
    (tamperedDOM (suspiciousPatterns cfg) &&
       match errorStack h with
       | Some stack => negb (JS.truthy stack) || negb (String.eqb (JS.typeof stack) "string")
       | None => true
       end).
Proof.
  cbv zeta.
  unfold hasTooManySuspiciousPatterns, suspicionCounters, checkMismatchedUA, checkTamperedDOM.
  cbv zeta.
  destruct (mismatchedUA (suspiciousPatterns cfg)), (tamperedDOM (suspiciousPatterns cfg)),
    (JS.includes (JS.toLowerCase (userAgent h)) "chrome"),
    (String.eqb (JS.typeof (chrome h)) "undefined"),
    (JS.includes (JS.toLowerCase (userAgent h)) "firefox"),
    (String.eqb (JS.typeof (InstallTrigger h)) "undefined");
    cbn [andb orb];
    (destruct (errorStack h) as [stack|];
     [destruct (negb (JS.truthy stack) || negb (String.eqb (JS.typeof stack) "string"))|]);
    split; vm_compute; reflexivity.
Qed.

Lemma highAutomationScore_cutoff h :
  highAutomationScore h = Qle_bool 8 (weightedScore h) /\
  (highAutomationScore h = true ->
   (2 <= Nat.b2n (hasWebdriverFlag h) + Nat.b2n (hasPhantomGlobal h) +
         Nat.b2n (hasSeleniumAttr h))%nat) /\
  (hasWebdriverFlag h && hasPhantomGlobal h && hasSeleniumAttr h = true ->
   highAutomationScore h = true).
Proof.
  unfold highAutomationScore, detectAutomation, weightedScore, primaryScore, secondaryScore.
  cbv zeta.
  destruct (hasWebdriverFlag h), (hasHeadlessUA h), (hasPhantomGlobal h),
    (hasSeleniumAttr h), (hasNoPlugins h), (lacksLanguages h),
    (chromeWithoutGlobal h), (mobileWithoutTouch h);
    (split; [vm_compute; reflexivity|]);
    (split; [vm_compute; first [lia | discriminate]
            | vm_compute; first [reflexivity | discriminate]]).
Qed.

(** X16. What it takes to be turned away by [validateBrowserEnvironment]:
    with [document] and [location] present the answer is false exactly when
    the weighted score is 8 or more; that needs at least two of the three
    signs of weight 3 (the webdriver flag, a PhantomJS global, a Selenium
    attribute), and all three of them are always enough. *)
Theorem validateBrowserEnvironment_rejects document location h :
  JS.truthy document = true ->
  JS.truthy location = true ->
  (validateBrowserEnvironment document location h = false <-> (8 <= weightedScore h)%Q) /\
  (validateBrowserEnvironment document location h = false ->
   (2 <= Nat.b2n (hasWebdriverFlag h) + Nat.b2n (hasPhantomGlobal h) +
         Nat.b2n (hasSeleniumAttr h))%nat) /\
  (hasWebdriverFlag h = true -> hasPhantomGlobal h = true -> hasSeleniumAttr h = true ->
   validateBrowserEnvironment document location h = false).
Proof.
  intros Hdoc Hloc.
  destruct (highAutomationScore_cutoff h) as (Hcut & Htwo & Hthree).
  assert (Hhigh : validateBrowserEnvironment document location h = negb (highAutomationScore h)).
  { unfold validateBrowserEnvironment. rewrite Hdoc, Hloc. reflexivity. }
  split; [|split].
  - rewrite Hhigh, Hcut, negb_false_iff. apply Qle_bool_iff.
  - rewrite Hhigh, negb_false_iff. exact Htwo.
  - intros Hw Hp Hs. rewrite Hhigh, negb_false_iff. apply Hthree.
    rewrite Hw, Hp, Hs. reflexivity.
Qed.

Lemma validateBrowserEnvironment_rejects_witness :
  validateBrowserEnvironment JS.VObject JS.VObject automatedHost = false /\
  (validateBrowserEnvironment JS.VObject JS.VObject desktopHost = false <->
   (8 <= weightedScore desktopHost)%Q).
Proof.
  destruct (validateBrowserEnvironment_rejects JS.VObject JS.VObject automatedHost)
    as (_ & _ & Hall); [reflexivity..|].
  destruct (validateBrowserEnvironment_rejects JS.VObject JS.VObject desktopHost)
    as (Hiff & _); [reflexivity..|].
  split; [apply Hall; reflexivity | exact Hiff].
Defined.

(** X17. [checkLegitimateUserIndicators] never answers true before two
    seconds on the page or with fewer than two interactions, and its answer
    only improves: once true it stays true as the time and the count grow
    and further kinds of input are seen. *)
Theorem checkLegitimateUserIndicators_monotone i i' :
  (timeOnPage i <= timeOnPage i')%Z ->
  (interactionCount i <= interactionCount i')%Z ->
  (hasNaturalMouseMovement i = true -> hasNaturalMouseMovement i' = true) ->
  (hasKeyboardInput i = true -> hasKeyboardInput i' = true) ->
  (hasTouchEvents i = true -> hasTouchEvents i' = true) ->
  checkLegitimateUserIndicators i = true ->
  checkLegitimateUserIndicators i' = true /\
  (2000 <= timeOnPage i)%Z /\ (2 <= interactionCount i)%Z.
Proof.
  unfold checkLegitimateUserIndicators. intros Ht Hc Hm Hk Hto.
  destruct (Z.ltb_spec (timeOnPage i) 2000); [discriminate|].
  destruct (Z.ltb_spec (interactionCount i) 2); [discriminate|].
  destruct (Z.ltb_spec (timeOnPage i') 2000); [lia|].
  destruct (Z.ltb_spec (interactionCount i') 2); [lia|].
  intros Hlegit. split; [|lia].
  destruct (hasNaturalMouseMovement i); [rewrite Hm by reflexivity; reflexivity|].
  destruct (hasNaturalMouseMovement i'); [reflexivity|].
  destruct (hasKeyboardInput i); [rewrite Hk by reflexivity; reflexivity|].
  destruct (hasTouchEvents i);
    [rewrite Hto by reflexivity; destruct (hasKeyboardInput i'); reflexivity|].
  cbn [orb] in Hlegit.
  destruct (Z.ltb_spec 5000 (timeOnPage i)); [|discriminate].
  destruct (hasKeyboardInput i' || hasTouchEvents i'); [reflexivity|].
  destruct (Z.ltb_spec 5000 (timeOnPage i')); [reflexivity|lia].
Qed.

Lemma checkLegitimateUserIndicators_monotone_witness :
  checkLegitimateUserIndicators
    {| hasHumanInteractions := true; hasNaturalMouseMovement := false;
       hasKeyboardInput := true; hasTouchEvents := true;
       timeOnPage := 4000; interactionCount := 5 |} = true.
Proof.
  apply (checkLegitimateUserIndicators_monotone
           {| hasHumanInteractions := true; hasNaturalMouseMovement := false;
              hasKeyboardInput := true; hasTouchEvents := false;
              timeOnPage := 3000; interactionCount := 2 |}
           {| hasHumanInteractions := true; hasNaturalMouseMovement := false;
              hasKeyboardInput := true; hasTouchEvents := true;
              timeOnPage := 4000; interactionCount := 5 |});
    cbn; first [lia | reflexivity | discriminate | (intros _; reflexivity)].
Defined.

(** ** The fragment handler *)

Lemma allAscii_complete c : In c allAscii.
Proof.
  unfold allAscii. rewrite <- (ascii_nat_embedding c).
  apply in_map, in_seq. pose proof (nat_ascii_bounded c). lia.
Qed.

Section Patterns.

Import RegExp.

Variable ok : ascii -> bool.

Lemma withinb_spec p cl c :
  withinb ok p = true -> In cl (classes p) -> inClass cl c = true -> ok c = true.
Proof.
  unfold withinb. rewrite forallb_forall. intros Hall Hin Hc.
  specialize (Hall cl Hin). rewrite forallb_forall in Hall.
  specialize (Hall c (allAscii_complete c)). rewrite Hc in Hall. exact Hall.
Qed.

Lemma isNever_nullable p : isNever p = true -> nullable p = false.
Proof.
  induction p as [| |cl|p IHp q IHq|p IHp q IHq|p IHp]; cbn; intros H;
    try discriminate; try reflexivity.
  - apply orb_true_iff in H as [H|H];
      [rewrite (IHp H); reflexivity|rewrite (IHq H); apply andb_false_r].
  - apply andb_true_iff in H as [Hp Hq]. rewrite (IHp Hp), (IHq Hq). reflexivity.
Qed.

Lemma isNever_deriv c p : isNever p = true -> isNever (deriv c p) = true.
Proof.
  induction p as [| |cl|p IHp q IHq|p IHp q IHq|p IHp]; cbn; intros H;
    try discriminate; try reflexivity.
  - apply orb_true_iff in H as [H|H].
    + rewrite (IHp H), (isNever_nullable p H). reflexivity.
    + rewrite H, orb_true_r. destruct (nullable p); [exact (IHq H)|reflexivity].
  - apply andb_true_iff in H as [Hp Hq]. rewrite (IHp Hp), (IHq Hq). reflexivity.
Qed.

Lemma isNever_test s : forall p, isNever p = true -> test p s = false.
Proof.
  induction s as [|c s IH]; intros p H; cbn.
  - apply isNever_nullable, H.
  - apply IH, isNever_deriv, H.
Qed.

Lemma classes_deriv c p cl : In cl (classes (deriv c p)) -> In cl (classes p).
Proof.
  induction p as [| |cl'|p IHp q IHq|p IHp q IHq|p IHp]; cbn.
  - intros [].
  - intros [].
  - destruct (inClass cl' c); intros [].
  - rewrite !in_app_iff. intros [[H|H]|H]; [left; exact (IHp H)|right; exact H|].
    destruct (nullable p); [right; exact (IHq H)|destruct H].
  - rewrite !in_app_iff. intros [H|H]; [left; exact (IHp H)|right; exact (IHq H)].
  - rewrite in_app_iff. intros [H|H]; [exact (IHp H)|exact H].
Qed.

Lemma deriv_outside c p :
  (forall cl, In cl (classes p) -> inClass cl c = true -> ok c = true) ->
  ok c = false -> isNever (deriv c p) = true.
Proof.
  intros Hin Hc.
  induction p as [| |cl|p IHp q IHq|p IHp q IHq|p IHp]; cbn in *.
  - reflexivity.
  - reflexivity.
  - destruct (inClass cl c) eqn:Hcl; [|reflexivity].
    rewrite (Hin cl (or_introl eq_refl) Hcl) in Hc. discriminate.
  - rewrite IHp by (intros cl H; apply Hin, in_app_iff; left; exact H). cbn.
    destruct (nullable p); [|reflexivity].
    apply IHq. intros cl H. apply Hin, in_app_iff. right. exact H.
  - rewrite IHp by (intros cl H; apply Hin, in_app_iff; left; exact H).
    apply IHq. intros cl H. apply Hin, in_app_iff. right. exact H.
  - rewrite IHp by exact Hin. reflexivity.
Qed.

(** A text a pattern accepts is made of characters its classes accept. *)
Lemma test_allChars s : forall p,
  (forall cl c, In cl (classes p) -> inClass cl c = true -> ok c = true) ->
  test p s = true -> allChars ok s = true.
Proof.
  induction s as [|c s IH]; intros p Hin Htest; cbn in *; [reflexivity|].
  destruct (ok c) eqn:Hc.
  - cbn. apply (IH (deriv c p)); [|exact Htest].
    intros cl c' Hcl. apply Hin, (classes_deriv c), Hcl.
  - rewrite isNever_test in Htest; [discriminate|].
    apply deriv_outside; [intros cl; apply Hin|exact Hc].
Qed.

End Patterns.

Lemma removeAll_allChars cl s :
  allChars (fun c => negb (RegExp.inClass cl c)) (RegExp.removeAll cl s) = true.
Proof.
  induction s as [|c s IH]; cbn; [reflexivity|].
  destruct (RegExp.inClass cl c) eqn:Hc; [exact IH|]. cbn. rewrite Hc, IH. reflexivity.
Qed.

Lemma removeAll_fixed cl s :
  allChars (fun c => negb (RegExp.inClass cl c)) s = true -> RegExp.removeAll cl s = s.
Proof.
  induction s as [|c s IH]; cbn; [reflexivity|].
  intros H. apply andb_true_iff in H as [Hc Hs].
  apply negb_true_iff in Hc. rewrite Hc, (IH Hs). reflexivity.
Qed.



Lemma allChars_hasChar ok c s : allChars ok s = true -> hasChar c s = true -> ok c = true.
Proof.
  induction s as [|c' s IH]; cbn; [discriminate|].
  intros Hall Hin. apply andb_true_iff in Hall as [Hc Hs].
  apply orb_true_iff in Hin as [Hin|Hin]; [|exact (IH Hs Hin)].
  apply Ascii.eqb_eq in Hin. subst. exact Hc.
Qed.

Lemma sanitizeFragment_removeAll s : sanitizeFragment s = RegExp.removeAll unsafeChars s.
Proof. unfold sanitizeFragment. destruct s; reflexivity. Qed.


Lemma includes_char s c : JS.includes s (String c EmptyString) = hasChar c s.
Proof.
  induction s as [|c' s IH]; [reflexivity|].
  cbn [JS.includes hasChar String.prefix]. rewrite IH.
  destruct (ascii_dec c c') as [->|Hne].
  - rewrite Ascii.eqb_refl. destruct s; reflexivity.
  - replace (Ascii.eqb c' c) with false; [reflexivity|].
    symmetry. apply Ascii.eqb_neq. congruence.
Qed.

Lemma split_hd sep s :
  hasChar sep s = true ->
  exists front tail,
    s = front ++ String sep tail /\ hasChar sep front = false /\
    hd "" (JS.split sep s) = front.
Proof.
  induction s as [|c s IH]; cbn [hasChar JS.split]; [discriminate|].
  destruct (Ascii.eqb c sep) eqn:Hc.
  - intros _. apply Ascii.eqb_eq in Hc. subst c.
    exists "", s. repeat split; reflexivity.
  - cbn [orb]. intros Hs. destruct (IH Hs) as (front & tail & Heq & Hfront & Hhd).
    exists (String c front), tail. split; [rewrite Heq at 1; reflexivity|].
    split; [cbn [hasChar]; rewrite Hc, Hfront; reflexivity|].
    destruct (JS.split sep s) as [|h t]; cbn [hd] in *; rewrite Hhd; reflexivity.
Qed.

Lemma countChar_app c s t : countChar c (s ++ t) = (countChar c s + countChar c t)%nat.
Proof.
  induction s as [|c' s IH]; [reflexivity|].
  change (countChar c (String c' (s ++ t)) = (countChar c (String c' s) + countChar c t)%nat).
  cbn [countChar]. rewrite IH. lia.
Qed.

Lemma countChar_absent c s : hasChar c s = false -> countChar c s = 0%nat.
Proof.
  induction s as [|c' s IH]; cbn; [reflexivity|].
  intros H. apply orb_false_elim in H as [Hc Hs]. rewrite Hc, (IH Hs). reflexivity.
Qed.

Lemma sanitizeFragment_no_hash s : hasChar "#" (sanitizeFragment s) = false.
Proof.
  rewrite sanitizeFragment_removeAll.
  destruct (hasChar "#" (RegExp.removeAll unsafeChars s)) eqn:Hc; [|reflexivity].
  pose proof (allChars_hasChar _ _ _ (removeAll_allChars unsafeChars s) Hc) as Hsafe.
  vm_compute in Hsafe. discriminate.
Qed.

Lemma string_eqb_empty s : String.eqb s "" = true <-> s = "".
Proof. apply String.eqb_eq. Qed.

(** [getRedirectFragment] in one expression: the [#] the hash starts with
    is dropped by the sanitizer and put back. *)
Lemma getRedirectFragment_run fragment :
  getRedirectFragment fragment =
  if String.eqb (sanitizeFragment fragment) "" then "" else "#" ++ sanitizeFragment fragment.
Proof.
  unfold getRedirectFragment, getFragment, location_hash.
  destruct fragment as [|c fragment]; [reflexivity|].
  rewrite !sanitizeFragment_removeAll.
  change (String.eqb (String c fragment) "") with false. cbv iota.
  change ("#" ++ String c fragment) with (String "#" (String c fragment)).
  change (String.eqb (String "#" (String c fragment)) "") with false.
  cbn [String.length Nat.leb orb].
  change (RegExp.removeAll unsafeChars (String "#" (String c fragment)))
    with (RegExp.removeAll unsafeChars (String c fragment)).
  destruct (String.eqb _ ""); reflexivity.
Qed.

(** X19. The shape of a redirect address.  When nothing of the fragment
    survives sanitizing, [appendFragmentToUrl] returns the base address as
    it is; otherwise it returns the base address up to its first [#] (the
    whole of it when it has none), one [#], and the sanitized fragment, so
    that the result holds exactly one [#]. *)
Theorem appendFragmentToUrl_shape fragment baseUrl :
  let clean := sanitizeFragment fragment in
  (clean = "" -> appendFragmentToUrl fragment baseUrl = baseUrl) /\
  (clean <> "" ->
   exists front,
     appendFragmentToUrl fragment baseUrl = front ++ "#" ++ clean /\
     hasChar "#" front = false /\
     (if hasChar "#" baseUrl
      then exists tail, baseUrl = front ++ "#" ++ tail
      else front = baseUrl) /\
     countChar "#" (appendFragmentToUrl fragment baseUrl) = 1%nat).
Proof.
  cbv zeta. unfold appendFragmentToUrl. rewrite getRedirectFragment_run. split.
  - intros ->. reflexivity.
  - intros Hclean.
    destruct (String.eqb (sanitizeFragment fragment) "") eqn:Hempty;
      [apply String.eqb_eq in Hempty; contradiction|].
    change (String.eqb ("#" ++ sanitizeFragment fragment) "") with false. cbv iota.
    assert (Hcount : forall front,
              hasChar "#" front = false ->
              countChar "#" (front ++ "#" ++ sanitizeFragment fragment) = 1%nat).
    { intros front Hfront. rewrite countChar_app, (countChar_absent _ _ Hfront).
      change ("#" ++ sanitizeFragment fragment) with (String "#" (sanitizeFragment fragment)).
      cbn [countChar]. rewrite Ascii.eqb_refl.
      rewrite (countChar_absent _ _ (sanitizeFragment_no_hash fragment)). reflexivity. }
    rewrite (includes_char baseUrl "#").
    destruct (hasChar "#" baseUrl) eqn:Hbase.
    + destruct (split_hd "#" baseUrl Hbase) as (front & tail & Heq & Hfront & Hhd).
      rewrite Hhd. exists front. split; [reflexivity|]. split; [exact Hfront|].
      split; [exists tail; exact Heq|]. apply Hcount, Hfront.
    + exists baseUrl. split; [reflexivity|]. split; [exact Hbase|].
      split; [reflexivity|]. apply Hcount, Hbase.
Qed.

Lemma appendFragmentToUrl_shape_witness :
  appendFragmentToUrl "<>" "https://example.org/a#b" = "https://example.org/a#b" /\
  countChar "#" (appendFragmentToUrl "id=<7>" "https://example.org/a#b") = 1%nat.
Proof.
  destruct (appendFragmentToUrl_shape "<>" "https://example.org/a#b") as [Hnone _].
  destruct (appendFragmentToUrl_shape "id=<7>" "https://example.org/a#b") as [_ Hsome].
  split.
  - apply Hnone. reflexivity.
  - destruct Hsome as (front & _ & _ & _ & Hone); [vm_compute; discriminate|exact Hone].
Defined.

Lemma substring_whole s : String.substring 0 (String.length s) s = s.
Proof. induction s as [|c s IH]; cbn; [reflexivity|]. rewrite IH. reflexivity. Qed.

Lemma substring1_hash fragment : substring1 ("#" ++ fragment) = fragment.
Proof.
  unfold substring1. change ("#" ++ fragment) with (String "#" fragment).
  cbn [String.length].
  replace (S (String.length fragment) - 1)%nat with (String.length fragment) by lia.
  cbn [String.substring]. apply substring_whole.
Qed.

Lemma recognised_safe content :
  RegExp.test emailPattern content = true \/ RegExp.test identifierPattern content = true ->
  allChars safeChar content = true.
Proof.
  intros [H|H].
  - apply (test_allChars safeChar content emailPattern); [|exact H].
    intros cl c. apply withinb_spec. vm_compute. reflexivity.
  - apply (test_allChars safeChar content identifierPattern); [|exact H].
    intros cl c. apply withinb_spec. vm_compute. reflexivity.
Qed.

(** X20. An identifier that is recognised passes unchanged.  When
    [extractIdentifier] returns an identifier, it is the whole fragment of
    the address, made of characters the sanitizer lets through, so that
    [sanitizeFragment] leaves it as it is, [getRedirectFragment] is the
    hash itself, and [appendFragmentToUrl] on a base address without a
    fragment appends the hash to it. *)
Theorem extractIdentifier_passes fragment content :
  extractIdentifier fragment = Some content ->
  content = fragment /\
  allChars safeChar fragment = true /\
  sanitizeFragment fragment = fragment /\
  getRedirectFragment fragment = "#" ++ fragment /\
  (forall baseUrl,
     hasChar "#" baseUrl = false ->
     appendFragmentToUrl fragment baseUrl = baseUrl ++ "#" ++ fragment).
Proof.
  unfold extractIdentifier, getFragment, location_hash.
  destruct (String.eqb fragment "") eqn:Hempty; [discriminate|].
  change (String.eqb ("#" ++ fragment) "") with false.
  destruct (String.length ("#" ++ fragment) <=? 1)%nat; [discriminate|].
  cbn [orb]. cbv zeta. rewrite substring1_hash.
  intros Hsome.
  assert (Hrec : RegExp.test emailPattern fragment = true \/
                 RegExp.test identifierPattern fragment = true).
  { destruct (RegExp.test emailPattern fragment); [left; reflexivity|].
    destruct (RegExp.test identifierPattern fragment); [right; reflexivity|discriminate]. }
  assert (Hcontent : content = fragment).
  { destruct (RegExp.test emailPattern fragment); [congruence|].
    destruct (RegExp.test identifierPattern fragment); congruence. }
  pose proof (recognised_safe fragment Hrec) as Hsafe.
  assert (Hfix : sanitizeFragment fragment = fragment).
  { rewrite sanitizeFragment_removeAll. apply removeAll_fixed. exact Hsafe. }
  assert (Hredirect : getRedirectFragment fragment = "#" ++ fragment).
  { rewrite getRedirectFragment_run, Hfix, Hempty. reflexivity. }
  repeat split; try assumption.
  intros baseUrl Hbase. unfold appendFragmentToUrl. rewrite Hredirect.
  change (String.eqb ("#" ++ fragment) "") with false. cbv iota.
  rewrite (includes_char baseUrl "#"), Hbase. reflexivity.
Qed.

Lemma extractIdentifier_passes_witness :
  appendFragmentToUrl "jane.doe@example.org" "https://example.org/next" =
  "https://example.org/next" ++ "#" ++ "jane.doe@example.org".
Proof.
  destruct (extractIdentifier_passes "jane.doe@example.org" "jane.doe@example.org")
    as (_ & _ & _ & _ & Happend).
  - vm_compute. reflexivity.
  - apply Happend. reflexivity.
Defined.

(** ** Fragments kept across a redirect *)

(** X21. A fragment survives a redirect.  Over stores that work, a page
    with a fragment stores it ([storeCurrentFragment] answers true); on the
    page the redirect leads to, whose address has no fragment,
    [restoreFragmentFromStorage] assigns the stored text to
    [window.location.hash] and removes it from both stores. *)
Theorem fragment_survives_redirect setHash p :
  hashFragment p <> "" ->
  available (sessionStore p) = true -> hasRoom (sessionStore p) = true ->
  available (localStore p) = true -> hasRoom (localStore p) = true ->
  let stored := storeCurrentFragment p in
  let arrived := restoreFragmentFromStorage setHash (set_hashFragment "" stored.2) in
  stored.1 = true /\
  redirectFragment (sessionStore stored.2) = Some (hashFragment p) /\
  redirectFragment (localStore stored.2) = Some (hashFragment p) /\
  hashFragment arrived = setHash (hashFragment p) /\
  redirectFragment (sessionStore arrived) = None /\
  redirectFragment (localStore arrived) = None.
Proof.
  destruct p as [fragment [sa sr sitem] [la lr litem]].
  cbn [hashFragment sessionStore localStore available hasRoom].
  intros Hfragment -> -> -> ->. cbv zeta.
  destruct fragment as [|c fragment]; [contradiction|].
  assert (Hstored : storeCurrentFragment
            {| hashFragment := String c fragment;
               sessionStore := {| available := true; hasRoom := true;
                                  redirectFragment := sitem |};
               localStore := {| available := true; hasRoom := true;
                                redirectFragment := litem |} |} =
          (true,
           {| hashFragment := String c fragment;
              sessionStore := {| available := true; hasRoom := true;
                                 redirectFragment := Some (String c fragment) |};
              localStore := {| available := true; hasRoom := true;
                               redirectFragment := Some (String c fragment) |} |})).
  { unfold storeCurrentFragment, location_hash.
    cbn [hashFragment sessionStore localStore available hasRoom set_sessionStore
         set_localStore set_item andb].
    change (String.eqb (String c fragment) "") with false. cbv iota.
    change (String.eqb ("#" ++ String c fragment) "") with false.
    cbn [negb]. rewrite substring1_hash. reflexivity. }
  rewrite Hstored. cbn [fst snd]. repeat split; reflexivity.
Qed.

Lemma fragment_survives_redirect_witness :
  hashFragment
    (restoreFragmentFromStorage (fun text => text)
       (set_hashFragment "" (storeCurrentFragment taggedPage).2)) =
  "jane.doe@example.org".
Proof.
  destruct (fragment_survives_redirect (fun text => text) taggedPage)
    as (_ & _ & _ & Hhash & _); [discriminate|reflexivity..|exact Hhash].
Defined.

(** X22. [restoreFragmentFromStorage] never replaces a fragment the address
    already has, leaves the page as it is when no text is stored, and when
    it does change the fragment it assigns a non-empty stored text. *)
Theorem restoreFragmentFromStorage_careful setHash p :
  let p' := restoreFragmentFromStorage setHash p in
  (hashFragment p <> "" -> hashFragment p' = hashFragment p) /\
  (presentText (redirectFragment (sessionStore p)) = false ->
   presentText (redirectFragment (localStore p)) = false ->
   p' = p) /\
  (hashFragment p' <> hashFragment p ->
   exists text,
     text <> "" /\ hashFragment p' = setHash text /\
     (redirectFragment (sessionStore p) = Some text \/
      redirectFragment (localStore p) = Some text)).
Proof.
  cbv zeta. unfold restoreFragmentFromStorage, cleanupFragmentStorage, location_hash.
  destruct p as [fragment [sa sr sitem] [la lr litem]].
  cbn [hashFragment sessionStore localStore set_hashFragment set_localStore set_sessionStore
       set_item available hasRoom redirectFragment].
  split; [|split].
  - intros Hfragment.
    destruct (String.eqb fragment "") eqn:Hempty;
      [apply String.eqb_eq in Hempty; contradiction|].
    change (String.eqb ("#" ++ fragment) "") with false.
    destruct sa, la, sitem as [[|c s]|], litem as [[|c' s']|]; reflexivity.
  - intros Hs Hl. destruct sa; [|reflexivity]. rewrite Hs. cbn [orb].
    destruct la; [|reflexivity].
    destruct litem as [text|]; [|reflexivity].
    cbn [presentText] in Hl. rewrite Hl. reflexivity.
  - destruct (String.eqb fragment "") eqn:Hempty.
    + change (String.eqb "" "") with true.
      destruct sa; [|intros H; contradiction H; reflexivity].
      destruct sitem as [[|c s]|], la, litem as [[|c' s']|];
        cbn; intros H; try (contradiction H; reflexivity);
        eexists; (split; [|split; [reflexivity|]]); try discriminate; auto.
    + change (String.eqb ("#" ++ fragment) "") with false.
      destruct sa, la, sitem as [[|c s]|], litem as [[|c' s']|];
        cbn; intros H; contradiction H; reflexivity.
Qed.

Lemma restoreFragmentFromStorage_careful_witness :
  hashFragment
    (restoreFragmentFromStorage (fun text => text)
       (set_hashFragment "kept" (storeCurrentFragment taggedPage).2)) = "kept".
Proof.
  destruct (restoreFragmentFromStorage_careful (fun text => text)
              (set_hashFragment "kept" (storeCurrentFragment taggedPage).2)) as (Hkeep & _).
  apply Hkeep. discriminate.
Defined.

(** ** The log of human visits *)

Lemma keepLast100_drop logs : keepLast100 logs = drop (length logs - 100) logs.
Proof.
  unfold keepLast100. destruct (Nat.ltb_spec 100 (length logs)) as [Hlong|Hshort];
    [reflexivity|].
  replace (length logs - 100)%nat with 0%nat by lia. reflexivity.
Qed.

Lemma keepLast100_app (logs more : list Visit) :
  keepLast100 (keepLast100 logs ++ more) = keepLast100 (logs ++ more).
Proof.
  rewrite !keepLast100_drop.
  set (k := (length logs - 100)%nat).
  assert (Hk : (k <= length logs)%nat) by (unfold k; lia).
  rewrite <- (drop_app_le logs more k Hk), drop_drop.
  rewrite length_drop, !length_app. f_equal. unfold k. lia.
Qed.

Lemma logHumanVisit_stored h st now eventType store :
  log_readable store = true -> log_writable store = true ->
  human_logs store <> Some Garbage ->
  logHumanVisit h st now eventType store =
  {| log_readable := true; log_writable := true;
     human_logs := Some (Json (keepLast100
                                (storedVisits store ++ [visitOf h st (now, eventType)]))) |}.
Proof.
  intros Hr Hw Hg. unfold logHumanVisit, storedVisits, visitOf. rewrite Hr, Hw.
  destruct (human_logs store) as [[|logs]|]; [congruence|reflexivity..].
Qed.

(** X23. The log holds the last hundred visits.  Over a store that works,
    after any series of one or more calls of [logHumanVisit] the stored log
    is the old log followed by the visits of the calls, in order, cut down
    to its last hundred entries; so it never holds more than a hundred. *)
Theorem logHumanVisits_last_hundred h st calls store :
  log_readable store = true -> log_writable store = true ->
  human_logs store <> Some Garbage ->
  calls <> [] ->
  let logs := (storedVisits store ++ map (visitOf h st) calls)%list in
  storedVisits (logHumanVisits h st calls store) = drop (length logs - 100) logs /\
  (length (storedVisits (logHumanVisits h st calls store)) <= 100)%nat.
Proof.
  intros Hr Hw Hg Hcalls. cbv zeta.
  assert (Hlog : storedVisits (logHumanVisits h st calls store) =
                 keepLast100 (storedVisits store ++ map (visitOf h st) calls)).
  { revert store Hr Hw Hg. induction calls as [|[now eventType] rest IH];
      [contradiction|]. intros store Hr Hw Hg.
    cbn [logHumanVisits map]. rewrite (logHumanVisit_stored h st now eventType store Hr Hw Hg).
    destruct rest as [|call rest]; [reflexivity|].
    rewrite IH by (try reflexivity; discriminate).
    unfold storedVisits at 1. cbn [human_logs].
    rewrite keepLast100_app, <- app_assoc. reflexivity. }
  rewrite Hlog, keepLast100_drop. split; [reflexivity|].
  rewrite length_drop. lia.
Qed.

Lemma logHumanVisits_last_hundred_witness :
  storedVisits
    (logHumanVisits desktopHost (freshState true)
       (map (fun n => (Z.of_nat n, "challenge_passed")) (seq 0 103)) emptyLog) =
  map (visitOf desktopHost (freshState true))
    (map (fun n => (Z.of_nat n, "challenge_passed")) (seq 3 100)).
Proof.
  destruct (logHumanVisits_last_hundred desktopHost (freshState true)
              (map (fun n => (Z.of_nat n, "challenge_passed")) (seq 0 103)) emptyLog)
    as [Hlog _]; [reflexivity | reflexivity | discriminate | discriminate |].
  rewrite Hlog. vm_compute. reflexivity.
Defined.

(** ** A blacklist text that does not parse *)

Lemma corrupt_recordFailedAttempt cfg h now why st :
  captcha_blacklist (localStorage st) = Some Garbage ->
  captcha_blacklist (localStorage (recordFailedAttempt cfg h now why st).2) = Some Garbage /\
  blacklistedIPs (recordFailedAttempt cfg h now why st).2 = blacklistedIPs st.
Proof.
  intros Hg. rewrite recordFailedAttempt_run. cbn [snd]. cbv zeta.
  rewrite saveFailedAttempts_run. cbn [snd].
  match goal with
  | |- context [if writable (localStorage ?s) then _ else _] =>
      assert (Hs : captcha_blacklist (localStorage s) = Some Garbage /\
                   blacklistedIPs s = blacklistedIPs st);
        [|destruct (writable (localStorage s)); exact Hs]
  end.
  destruct (_ <=? _)%Z; [|split; [exact Hg|reflexivity]].
  rewrite addToBlacklist_run. cbn [snd].
  cbn [readable writable captcha_blacklist localStorage set_failedAttempts].
  rewrite Hg. destruct (_ && _); split; first [exact Hg | reflexivity].
Qed.

(** X24. A blacklist text that does not parse is never repaired, and while
    it lasts nobody is blacklisted: after [addToBlacklist],
    [cleanupExpiredEntries], [checkBlacklist] and any series of
    [recordFailedAttempt] calls the stored text is still the one that does
    not parse, the runtime list is as it was, and [isClientBlacklisted]
    answers false for every client, however many failures were recorded. *)
Theorem corrupt_blacklist_never_repaired cfg h st :
  captcha_blacklist (localStorage st) = Some Garbage ->
  let unrepaired st' :=
    captcha_blacklist (localStorage st') = Some Garbage /\
    blacklistedIPs st' = blacklistedIPs st /\
    forall now clientId, returned (isClientBlacklisted now clientId st') = Some false in
  (forall now clientId reasons, unrepaired (addToBlacklist cfg now clientId reasons st).2) /\
  (forall now, unrepaired (cleanupExpiredEntries now st).2) /\
  (forall now, unrepaired (checkBlacklist cfg h now st).2) /\
  (forall calls, unrepaired (recordFailures cfg h calls st)).
Proof.
  intros Hg. cbv zeta.
  assert (Hfalse : forall st',
            captcha_blacklist (localStorage st') = Some Garbage ->
            forall now clientId, returned (isClientBlacklisted now clientId st') = Some false).
  { intros st' Hg' now clientId. rewrite isClientBlacklisted_run. unfold returned, storedBlacklist.
    cbn [fst]. rewrite Hg', lookup_empty, andb_false_r. reflexivity. }
  assert (Hrecord : forall now why,
            captcha_blacklist (localStorage (recordFailedAttempt cfg h now why st).2) =
              Some Garbage /\
            blacklistedIPs (recordFailedAttempt cfg h now why st).2 = blacklistedIPs st /\
            forall now' clientId,
              returned (isClientBlacklisted now' clientId
                          (recordFailedAttempt cfg h now why st).2) = Some false).
  { intros now why. destruct (corrupt_recordFailedAttempt cfg h now why st Hg) as [Hg' Hips].
    split; [exact Hg'|]. split; [exact Hips|]. apply Hfalse, Hg'. }
  split; [|split; [|split]].
  - intros now clientId reasons. rewrite addToBlacklist_run. cbn [snd]. rewrite Hg.
    destruct (_ && _); (split; [exact Hg|]; split; [reflexivity|]; apply Hfalse, Hg).
  - intros now. rewrite cleanupExpiredEntries_run. cbn [snd]. rewrite Hg.
    destruct (readable (localStorage st));
      (split; [exact Hg|]; split; [reflexivity|]; apply Hfalse, Hg).
  - intros now. rewrite checkBlacklist_run.
    repeat match goal with |- context [if ?c then (_, _) else _] => destruct c end;
      cbn [snd]; first [apply Hrecord | split; [exact Hg|]; split; [reflexivity|]; apply Hfalse, Hg].
  - intros calls.
    assert (Hseries : captcha_blacklist (localStorage (recordFailures cfg h calls st)) =
                        Some Garbage /\
                      blacklistedIPs (recordFailures cfg h calls st) = blacklistedIPs st).
    { clear Hrecord. revert st Hg. induction calls as [|[now why] calls IH]; intros st Hg;
        [split; [exact Hg|reflexivity]|].
      cbn [recordFailures].
      destruct (corrupt_recordFailedAttempt cfg h now why st Hg) as [Hg' Hips].
      destruct (IH _ Hg') as [Hg'' Hips']. split; [exact Hg''|]. rewrite Hips'. exact Hips. }
    destruct Hseries as [Hg' Hips]. split; [exact Hg'|]. split; [exact Hips|].
    apply Hfalse, Hg'.
Qed.

Lemma corrupt_blacklist_never_repaired_witness :
  returned
    (isClientBlacklisted 40 (clientIdentifier desktopHost defaultPreferences)
       (recordFailures defaultConfig desktopHost threeFailures
          (set_localStorage (store_blacklist Garbage) (freshState true)))) =
  Some false.
Proof.
  destruct (corrupt_blacklist_never_repaired defaultConfig desktopHost
              (set_localStorage (store_blacklist Garbage) (freshState true)))
    as (_ & _ & _ & Hseries); [reflexivity|].
  destruct (Hseries threeFailures) as (_ & _ & Hfalse). apply Hfalse.
Defined.

(** ** The failure count over a series of calls *)

Lemma failureCount_step cfg h now why st :
  let clientId := clientIdentifier h (userPreferences st) in
  failureCount (recordFailedAttempt cfg h now why st).2 clientId =
  if (maxFailedAttempts (thresholds cfg) <=? failureCount st clientId + 1)%Z
  then 0%Z else (failureCount st clientId + 1)%Z.
Proof.
  cbv zeta. pose proof (recordFailedAttempt_records cfg h now why st) as Hrec.
  unfold failureRecorded in Hrec. cbv zeta in Hrec.
  destruct (_ <=? _)%Z; [|exact Hrec].
  unfold failureCount at 1. rewrite Hrec. reflexivity.
Qed.

(** X25. The failure count runs in cycles of [maxFailedAttempts]: for a
    positive threshold and a client whose count starts below it, after any
    series of [recordFailedAttempt] calls the count the session holds is
    the starting count plus the number of calls, modulo the threshold,
    whatever the state of the store. *)
Theorem failure_count_cycles cfg h calls st :
  let clientId := clientIdentifier h (userPreferences st) in
  let limit := maxFailedAttempts (thresholds cfg) in
  (0 < limit)%Z ->
  (0 <= failureCount st clientId < limit)%Z ->
  failureCount (recordFailures cfg h calls st) clientId =
  ((failureCount st clientId + Z.of_nat (length calls)) mod limit)%Z.
Proof.
  cbv zeta. intros Hlimit. revert st.
  induction calls as [|[now why] calls IH]; intros st Hstart.
  - cbn [recordFailures length]. rewrite Z.add_0_r. symmetry. apply Z.mod_small. exact Hstart.
  - cbn [recordFailures length].
    destruct (recordFailedAttempt_frame cfg h now why st) as (_ & _ & Hprefs & _).
    cbv zeta in Hprefs.
    pose proof (failureCount_step cfg h now why st) as Hstep. cbv zeta in Hstep.
    specialize (IH (recordFailedAttempt cfg h now why st).2).
    rewrite Hprefs in IH. rewrite IH.
    + rewrite Hstep. destruct (Z.leb_spec (maxFailedAttempts (thresholds cfg))
                                          (failureCount st (clientIdentifier h (userPreferences st)) + 1)).
      * replace (failureCount st (clientIdentifier h (userPreferences st)) +
                 Z.of_nat (S (length calls)))%Z
          with (Z.of_nat (length calls) + 1 * maxFailedAttempts (thresholds cfg))%Z by lia.
        rewrite Z_mod_plus_full. reflexivity.
      * f_equal. lia.
    + rewrite Hstep. destruct (Z.leb_spec (maxFailedAttempts (thresholds cfg))
                                          (failureCount st (clientIdentifier h (userPreferences st)) + 1)); lia.
Qed.

Lemma failure_count_cycles_witness :
  failureCount
    (recordFailures defaultConfig desktopHost (threeFailures ++ take 2 threeFailures)%list
       (freshState true))
    (clientIdentifier desktopHost defaultPreferences) = 2%Z.
Proof.
  apply (failure_count_cycles defaultConfig desktopHost
           (threeFailures ++ take 2 threeFailures)%list (freshState true)).
  - reflexivity.
  - vm_compute. split; [discriminate|reflexivity].
Defined.
